(** * Stream reassembly: a shallow embedding of [ChunkProcessor]

    Source: [litellm/litellm_core_utils/streaming_chunk_builder_utils.py].

    The engine folds a finite list of streaming chunks into one response.
    Python values are embedded as follows.
    - [str] is [string]; [int] is [Z]; [bytes] is a list of [N] below 256.
    - A field that Python reads with [d.get(k)] or guards with [hasattr] is
      an [option]: [None] stands for "key/attribute missing or [None]"
      whenever the code treats the two alike.  Where the code tells them
      apart the field is an [attr]: [Absent], [Null] or [Present v].
    - A [for] loop that updates local variables is a [fold_left] of its body
      over the iterated list; the tuple of locals is the accumulator.
    - A call that may raise returns a [result]. *)

From Stdlib Require Import ZArith NArith Ascii String List Lia Permutation Sorted.
From stdpp Require Import base option list strings gmap.

Set Default Proof Using "Type".

(** ** Python values *)

Inductive attr (A : Type) : Type :=
| Absent
| Null
| Present (a : A).
Arguments Absent {A}.
Arguments Null {A}.
Arguments Present {A} a.

Inductive result (E A : Type) : Type :=
| Ok (a : A)
| Raise (e : E).
Arguments Ok {E A} a.
Arguments Raise {E A} e.

(** Truthiness of an optional string: [None] and [""] are falsy. *)
Definition truthy (o : option string) : bool :=
  match o with
  | Some (String _ _) => true
  | _ => false
  end.

(** [x or d] on strings. *)
Definition str_or (s d : string) : string :=
  match s with
  | EmptyString => d
  | _ => s
  end.

(** [sep.join(l)] with [sep = ""]. *)
Definition join (l : list string) : string := String.concat "" l.

(** ** Data model *)

Record FunctionDelta := {
  fn_name : option string;
  fn_arguments : option string;
}.

(** One entry of [delta.tool_calls].  [tc_index = None] means the entry has
    no [index] attribute; [tc_function] is [Absent] when the entry has no
    [function] attribute at all and [Null] when the attribute holds [None]. *)
Record ToolCallDelta := {
  tc_index : option Z;
  tc_id : option string;
  tc_type : option string;
  tc_function : attr FunctionDelta;
}.

Record ThinkingBlock := {
  tb_type : option string;
  tb_thinking : option string;
  tb_signature : option string;
  tb_data : option string;
}.

(** [dl_tool_calls] is [delta.get("tool_calls", [])]: a missing key reads as
    the empty list; a falsy entry of the list is [None].
    [dl_thinking_blocks] is [delta.get("thinking_blocks", None)]. *)
Record Delta := {
  dl_content : attr string;
  dl_reasoning_content : attr string;
  dl_thinking_blocks : option (list ThinkingBlock);
  dl_tool_calls : list (option ToolCallDelta);
}.

(** [ch_delta = None] is a choice without a [delta] key. *)
Record Choice := {
  ch_delta : option Delta;
  ch_finish_reason : attr string;
}.

Record CompletionTokensDetails := {
  ctd_reasoning_tokens : option Z;
}.

Record PromptTokensDetailsWrapper := {
  ptd_web_search_requests : option Z;
  ptd_cached_tokens : option Z;
}.

(** A usage record carried by a chunk.  The [_details] fields hold the value
    after the [isinstance] conversions of [_usage_chunk_calculation_helper]:
    [None] when the attribute is missing or of another type. *)
Record UsageChunk := {
  uc_prompt_tokens : option Z;
  uc_completion_tokens : option Z;
  uc_total_tokens : option Z;
  uc_cache_creation_input_tokens : option Z;
  uc_cache_read_input_tokens : option Z;
  uc_completion_tokens_details : option CompletionTokensDetails;
  uc_prompt_tokens_details : option PromptTokensDetailsWrapper;
}.

(** The [_hidden_params] side channel.  [created_at] is a timestamp; only
    its truthiness and its order are used, so it is an integer here. *)
Record HiddenParams := {
  hp_created_at : option Z;
  hp_usage : option UsageChunk;
}.

(** [ck_usage] is [Absent] when ["usage" in chunk] is false.
    [ck_is_model_response] is the [isinstance(chunk, ModelResponse) or
    isinstance(chunk, ModelResponseStream)] test together with
    [hasattr(chunk, "_hidden_params")]. *)
Record Chunk := {
  ck_choices : list Choice;
  ck_usage : attr UsageChunk;
  ck_is_model_response : bool;
  ck_hidden_params : HiddenParams;
}.

Definition empty_delta : Delta :=
  {| dl_content := Absent; dl_reasoning_content := Absent;
     dl_thinking_blocks := None; dl_tool_calls := [] |}.

(** [choice.get("delta", {})] *)
Definition choice_delta (choice : Choice) : Delta :=
  default empty_delta (ch_delta choice).

(** ** Content merger *)

Inductive delta_key := content | reasoning_content.

(** [delta.get(delta_key, "")]: a missing key reads as [""], an explicit
    [None] stays [None]. *)
Definition delta_get (delta : Delta) (k : delta_key) : option string :=
  let field := match k with
               | content => dl_content delta
               | reasoning_content => dl_reasoning_content delta
               end in
  match field with
  | Absent => Some ""
  | Null => None
  | Present s => Some s
  end.

Definition content_choice_step (k : delta_key)
    (content_list : list string) (choice : Choice) : list string :=
  match delta_get (choice_delta choice) k with
  | None => content_list
  | Some c => content_list ++ [c]
  end.

Definition content_chunk_step (k : delta_key)
    (content_list : list string) (chunk : Chunk) : list string :=
  fold_left (content_choice_step k) (ck_choices chunk) content_list.

Definition get_combined_content (chunks : list Chunk) (k : delta_key) : string :=
  let content_list := fold_left (content_chunk_step k) chunks [] in
  join content_list.

Definition get_combined_reasoning_content (chunks : list Chunk) : string :=
  get_combined_content chunks reasoning_content.

(** ** Chunk orderer *)

(** Python's [sorted(l, key=f)]: a stable sort that compares keys with [<]
    only.  The embedding is a stable insertion sort; stability and
    sortedness determine the output uniquely, so any stable sort denotes
    the same function. *)
Section PySorted.
Context {A K : Type} (key : A → K) (lt : K → K → bool).

Fixpoint sorted_insert (x : A) (l : list A) : list A :=
  match l with
  | [] => [x]
  | y :: l' => if lt (key y) (key x) then y :: sorted_insert x l' else x :: y :: l'
  end.

Definition py_sorted (l : list A) : list A := foldr sorted_insert [] l.

(** [x] may stand before [y] in a sorted output: not [key y < key x]. *)
Definition key_le (x y : A) : Prop := lt (key y) (key x) = false.

End PySorted.

(** Keys of [_sort_chunks]: a timestamp, or [float("inf")]. *)
Inductive sort_key :=
| Finite (t : Z)
| Infinity.

Definition key_lt (a b : sort_key) : bool :=
  match a, b with
  | Finite x, Finite y => (x <? y)%Z
  | Finite _, Infinity => true
  | Infinity, _ => false
  end.

(** [x._hidden_params.get("created_at", float("inf"))] *)
Definition created_at_key (x : Chunk) : sort_key :=
  match hp_created_at (ck_hidden_params x) with
  | Some t => Finite t
  | None => Infinity
  end.

(** Truthiness of [d.get(k)] for a number: present and non-zero. *)
Definition truthy_num (o : option Z) : bool :=
  match o with
  | Some t => negb (t =? 0)%Z
  | None => false
  end.

Definition _sort_chunks (chunks : list Chunk) : list Chunk :=
  match chunks with
  | [] => []
  | c0 :: _ =>
      if truthy_num (hp_created_at (ck_hidden_params c0))
      then py_sorted created_at_key key_lt chunks
      else chunks
  end.

(** ** Base-response builder: the [finish_reason] scan *)

(** Lines 79-85 of [build_base_response].  The value computed here is the
    one handed to the [ModelResponse] constructor; it is [None] when the
    last value read from a chunk is Python's [None]. *)
Definition finish_reason_step (finish_reason : option string) (chunk : Chunk)
    : option string :=
  match ck_choices chunk with
  | [] => finish_reason
  | choice0 :: _ =>
      match ch_finish_reason choice0 with
      | Absent => finish_reason
      | Null => None
      | Present s => Some s
      end
  end.

Definition build_base_response_finish_reason (chunks : list Chunk) : option string :=
  fold_left finish_reason_step chunks (Some "stop").

(** ** Tool-call merger *)

(** One value of [tool_call_map]. *)
Record ToolCallAcc := {
  acc_id : option string;
  acc_name : option string;
  acc_type : option string;
  acc_arguments : list string;
}.

Definition empty_acc : ToolCallAcc :=
  {| acc_id := None; acc_name := None; acc_type := None; acc_arguments := [] |}.

Record Function := {
  f_arguments : string;
  f_name : string;
}.

Record ChatCompletionMessageToolCall := {
  tcall_id : string;
  tcall_function : Function;
  tcall_type : string;
}.

(** The four guarded assignments of lines 142-158; each one writes one key
    of the accumulator and reads none. *)
Definition update_acc (tool_call : ToolCallDelta) (acc : ToolCallAcc) : ToolCallAcc :=
  {| acc_id :=
       if truthy (tc_id tool_call) then tc_id tool_call else acc_id acc;
     acc_name :=
       match tc_function tool_call with
       | Present f => if truthy (fn_name f) then fn_name f else acc_name acc
       | _ => acc_name acc
       end;
     acc_type :=
       if truthy (tc_type tool_call) then tc_type tool_call else acc_type acc;
     acc_arguments :=
       match tc_function tool_call with
       | Present f =>
           match fn_arguments f with
           | Some (String a s) => acc_arguments acc ++ [String a s]
           | _ => acc_arguments acc
           end
       | _ => acc_arguments acc
       end |}.

(** The guard of line 130: a falsy entry, or one without a [function]
    attribute, is skipped. *)
Definition scanned (entry : option ToolCallDelta) : option ToolCallDelta :=
  match entry with
  | None => None
  | Some tool_call =>
      match tc_function tool_call with
      | Absent => None
      | _ => Some tool_call
      end
  end.

(** [getattr(tool_call, "index", 0)] *)
Definition index_of (tool_call : ToolCallDelta) : Z := default 0%Z (tc_index tool_call).

Definition tool_call_step (tool_call_map : gmap Z ToolCallAcc)
    (entry : option ToolCallDelta) : gmap Z ToolCallAcc :=
  match scanned entry with
  | None => tool_call_map
  | Some tool_call =>
      let index := index_of tool_call in
      let tool_call_map :=
        match tool_call_map !! index with
        | None => <[index := empty_acc]> tool_call_map
        | Some _ => tool_call_map
        end in
      alter (update_acc tool_call) index tool_call_map
  end.

Definition tool_choice_step (tool_call_map : gmap Z ToolCallAcc) (choice : Choice)
    : gmap Z ToolCallAcc :=
  fold_left tool_call_step (dl_tool_calls (choice_delta choice)) tool_call_map.

Definition tool_chunk_step (tool_call_map : gmap Z ToolCallAcc) (chunk : Chunk)
    : gmap Z ToolCallAcc :=
  fold_left tool_choice_step (ck_choices chunk) tool_call_map.

Definition build_tool_call_map (tool_call_chunks : list Chunk) : gmap Z ToolCallAcc :=
  fold_left tool_chunk_step tool_call_chunks ∅.

(** [sorted(tool_call_map.keys())]; the keys are distinct, so the result
    does not depend on the order in which the dictionary lists them. *)
Definition sorted_keys (tool_call_map : gmap Z ToolCallAcc) : list Z :=
  py_sorted (λ i, i) Z.ltb (map_to_list tool_call_map).*1.

Definition emit_tool_call (tool_call_data : ToolCallAcc)
    : option ChatCompletionMessageToolCall :=
  match acc_id tool_call_data, acc_name tool_call_data with
  | Some (String a i), Some (String b n) =>
      let combined_arguments := str_or (join (acc_arguments tool_call_data)) "{}" in
      Some {| tcall_id := String a i;
              tcall_function := {| f_arguments := combined_arguments;
                                   f_name := String b n |};
              tcall_type := str_or (default "" (acc_type tool_call_data)) "function" |}
  | _, _ => None
  end.

Definition emit_step (tool_call_map : gmap Z ToolCallAcc)
    (tool_calls_list : list ChatCompletionMessageToolCall) (index : Z)
    : list ChatCompletionMessageToolCall :=
  match tool_call_map !! index ≫= emit_tool_call with
  | Some call => tool_calls_list ++ [call]
  | None => tool_calls_list
  end.

Definition get_combined_tool_content (tool_call_chunks : list Chunk)
    : list ChatCompletionMessageToolCall :=
  let tool_call_map := build_tool_call_map tool_call_chunks in
  fold_left (emit_step tool_call_map) (sorted_keys tool_call_map) [].

(** ** Thinking-block merger *)

Inductive thinking_variant := thinking | redacted_thinking.

Inductive ThinkingBlockOut :=
| ChatCompletionThinkingBlock (text signature : string)
| ChatCompletionRedactedThinkingBlock (data : string).

(** The locals of the scan: [combined_thinking_text], [data], [signature]
    and [type]. *)
Record ThinkingState := {
  combined_thinking_text : option string;
  th_data : option string;
  th_signature : option string;
  th_type : thinking_variant;
}.

Definition thinking_init : ThinkingState :=
  {| combined_thinking_text := None; th_data := None;
     th_signature := None; th_type := thinking |}.

Definition is_redacted (thinking_block : ThinkingBlock) : bool :=
  bool_decide (tb_type thinking_block = Some "redacted_thinking").

Definition thinking_block_step (st : ThinkingState) (thinking_block : ThinkingBlock)
    : ThinkingState :=
  if is_redacted thinking_block then
    {| combined_thinking_text := combined_thinking_text st;
       th_data := tb_data thinking_block;
       th_signature := th_signature st;
       th_type := redacted_thinking |}
  else
    {| combined_thinking_text :=
         match tb_thinking thinking_block with
         | Some (String a t) =>
             Some (default "" (combined_thinking_text st) +:+ String a t)
         | _ => combined_thinking_text st
         end;
       th_data := th_data st;
       th_signature := tb_signature thinking_block;
       th_type := thinking |}.

Definition thinking_choice_step (st : ThinkingState) (choice : Choice) : ThinkingState :=
  match dl_thinking_blocks (choice_delta choice) with
  | Some (b :: bs) => fold_left thinking_block_step (b :: bs) st
  | _ => st
  end.

Definition thinking_chunk_step (st : ThinkingState) (chunk : Chunk) : ThinkingState :=
  fold_left thinking_choice_step (ck_choices chunk) st.

Definition thinking_emit (st : ThinkingState) : option (list ThinkingBlockOut) :=
  match combined_thinking_text st, th_type st, th_signature st with
  | Some (String a t), thinking, Some (String b s) =>
      Some [ChatCompletionThinkingBlock (String a t) (String b s)]
  | _, _, _ =>
      match th_data st, th_type st with
      | Some (String a d), redacted_thinking =>
          Some [ChatCompletionRedactedThinkingBlock (String a d)]
      | _, _ => None
      end
  end.

Definition get_combined_thinking_content (chunks : list Chunk)
    : option (list ThinkingBlockOut) :=
  thinking_emit (fold_left thinking_chunk_step chunks thinking_init).

(** ** Usage aggregator *)

(** The dictionary returned by [_usage_chunk_calculation_helper]. *)
Record UsageChunkDict := {
  ud_prompt_tokens : Z;
  ud_completion_tokens : Z;
  ud_cache_creation_input_tokens : option Z;
  ud_cache_read_input_tokens : option Z;
  ud_completion_tokens_details : option CompletionTokensDetails;
  ud_prompt_tokens_details : option PromptTokensDetailsWrapper;
}.

(** [usage_chunk.get("prompt_tokens", 0) or 0] is [0] for a missing key,
    for [None] and for [0]. *)
Definition _usage_chunk_calculation_helper (usage_chunk : UsageChunk) : UsageChunkDict :=
  {| ud_prompt_tokens := default 0%Z (uc_prompt_tokens usage_chunk);
     ud_completion_tokens := default 0%Z (uc_completion_tokens usage_chunk);
     ud_cache_creation_input_tokens := uc_cache_creation_input_tokens usage_chunk;
     ud_cache_read_input_tokens := uc_cache_read_input_tokens usage_chunk;
     ud_completion_tokens_details := uc_completion_tokens_details usage_chunk;
     ud_prompt_tokens_details := uc_prompt_tokens_details usage_chunk |}.

Record UsagePerChunk := {
  upc_prompt_tokens : Z;
  upc_completion_tokens : Z;
  upc_cache_creation_input_tokens : option Z;
  upc_cache_read_input_tokens : option Z;
  upc_web_search_requests : option Z;
  upc_completion_tokens_details : option CompletionTokensDetails;
  upc_prompt_tokens_details : option PromptTokensDetailsWrapper;
}.

Definition usage_init : UsagePerChunk :=
  {| upc_prompt_tokens := 0; upc_completion_tokens := 0;
     upc_cache_creation_input_tokens := None;
     upc_cache_read_input_tokens := None;
     upc_web_search_requests := None;
     upc_completion_tokens_details := None;
     upc_prompt_tokens_details := None |}.

(** Lines 399-406: where the usage record of a chunk is read from. *)
Definition usage_of_chunk (chunk : Chunk) : option UsageChunk :=
  match ck_usage chunk with
  | Present usage_chunk => Some usage_chunk
  | Null => None
  | Absent =>
      if ck_is_model_response chunk
      then hp_usage (ck_hidden_params chunk)
      else None
  end.

(** [v is not None and v > 0] *)
Definition override_positive (new running : Z) : Z :=
  if (0 <? new)%Z then new else running.

(** [v is not None and (v > 0 or running is None)] *)
Definition override_cache (new running : option Z) : option Z :=
  match new with
  | Some v => if (0 <? v)%Z || bool_decide (running = None) then Some v else running
  | None => running
  end.

(** Lines 408-452: the body of the scan for one usage record. *)
Definition usage_record_step (st : UsagePerChunk) (usage_chunk : UsageChunk)
    : UsagePerChunk :=
  let usage_chunk_dict := _usage_chunk_calculation_helper usage_chunk in
  {| upc_prompt_tokens :=
       override_positive (ud_prompt_tokens usage_chunk_dict) (upc_prompt_tokens st);
     upc_completion_tokens :=
       override_positive (ud_completion_tokens usage_chunk_dict)
                         (upc_completion_tokens st);
     upc_cache_creation_input_tokens :=
       override_cache (ud_cache_creation_input_tokens usage_chunk_dict)
                      (upc_cache_creation_input_tokens st);
     upc_cache_read_input_tokens :=
       override_cache (ud_cache_read_input_tokens usage_chunk_dict)
                      (upc_cache_read_input_tokens st);
     upc_web_search_requests :=
       match ud_prompt_tokens_details usage_chunk_dict ≫= ptd_web_search_requests with
       | Some w => Some w
       | None => upc_web_search_requests st
       end;
     upc_completion_tokens_details :=
       match ud_completion_tokens_details usage_chunk_dict with
       | Some d => Some d
       | None => upc_completion_tokens_details st
       end;
     upc_prompt_tokens_details := ud_prompt_tokens_details usage_chunk_dict |}.

Definition usage_step (st : UsagePerChunk) (chunk : Chunk) : UsagePerChunk :=
  match usage_of_chunk chunk with
  | Some usage_chunk => usage_record_step st usage_chunk
  | None => st
  end.

Definition _calculate_usage_per_chunk (chunks : list Chunk) : UsagePerChunk :=
  fold_left usage_step chunks usage_init.

(** Modelled from the spec: the [Usage] class is declared outside the given
    sources; following the data model of the specification it is a plain
    record of the counters it is constructed with, so that the closing
    reconstruction of [returned_usage] from its own [model_dump] keeps the
    three token counters.  The record below is [returned_usage] as it
    stands before that reconstruction. *)
Record Usage := {
  prompt_tokens : Z;
  completion_tokens : Z;
  total_tokens : Z;
  cache_creation_input_tokens : option Z;
  cache_read_input_tokens : option Z;
  completion_tokens_details : option CompletionTokensDetails;
  prompt_tokens_details : option PromptTokensDetailsWrapper;
}.

Section CalculateUsage.
(** The external tokenizer [token_counter(model, messages, text,
    count_response_tokens)]; [E] is the type of the exceptions it raises. *)
Context {Messages E : Type}.
Variable token_counter :
  string → option Messages → option string → bool → result E Z.

(** Lines 499-507: [prompt_tokens or token_counter(...)] under
    [try/except Exception]. *)
Definition resolve_prompt_tokens (prompt_tokens : Z) (model : string)
    (messages : option Messages) : Z :=
  if (prompt_tokens =? 0)%Z then
    match token_counter model messages None false with
    | Ok n => n
    | Raise _ => 0%Z
    end
  else prompt_tokens.

(** Lines 508-512: [completion_tokens or token_counter(...)], unguarded. *)
Definition resolve_completion_tokens (completion_tokens : Z) (model : string)
    (completion_output : string) : result E Z :=
  if (completion_tokens =? 0)%Z
  then token_counter model None (Some completion_output) true
  else Ok completion_tokens.

(** Lines 529-543 *)
Definition merge_reasoning_tokens (details : option CompletionTokensDetails)
    (reasoning_tokens : option Z) : option CompletionTokensDetails :=
  match reasoning_tokens with
  | None => details
  | Some r =>
      match details with
      | None => Some {| ctd_reasoning_tokens := Some r |}
      | Some d =>
          match ctd_reasoning_tokens d with
          | None => Some {| ctd_reasoning_tokens := Some r |}
          | Some _ => Some d
          end
      end
  end.

(** Lines 544-555 *)
Definition merge_web_search_requests (details : option PromptTokensDetailsWrapper)
    (web_search_requests : option Z) : option PromptTokensDetailsWrapper :=
  match web_search_requests with
  | None => details
  | Some w =>
      match details with
      | None => Some {| ptd_web_search_requests := Some w; ptd_cached_tokens := None |}
      | Some d => Some {| ptd_web_search_requests := Some w;
                          ptd_cached_tokens := ptd_cached_tokens d |}
      end
  end.

Definition calculate_usage (chunks : list Chunk) (model : string)
    (completion_output : string) (messages : option Messages)
    (reasoning_tokens : option Z) : result E Usage :=
  let calculated_usage_per_chunk := _calculate_usage_per_chunk chunks in
  let prompt :=
    resolve_prompt_tokens (upc_prompt_tokens calculated_usage_per_chunk)
                          model messages in
  match resolve_completion_tokens (upc_completion_tokens calculated_usage_per_chunk)
                                  model completion_output with
  | Raise e => Raise e
  | Ok completion =>
      Ok {| prompt_tokens := prompt;
            completion_tokens := completion;
            total_tokens := prompt + completion;
            cache_creation_input_tokens :=
              upc_cache_creation_input_tokens calculated_usage_per_chunk;
            cache_read_input_tokens :=
              upc_cache_read_input_tokens calculated_usage_per_chunk;
            completion_tokens_details :=
              merge_reasoning_tokens
                (upc_completion_tokens_details calculated_usage_per_chunk)
                reasoning_tokens;
            prompt_tokens_details :=
              merge_web_search_requests
                (upc_prompt_tokens_details calculated_usage_per_chunk)
                (upc_web_search_requests calculated_usage_per_chunk) |}
  end.

End CalculateUsage.

(** ** Audio merger: base64 concatenation *)

(** The codec of Python's [base64] module, which the repository calls but
    does not define.  [b64encode] is the RFC 4648 encoding; [b64decode] is
    the decoder in its default, non-validating mode as [binascii.a2b_base64]
    runs it: characters outside the alphabet are skipped, decoding stops at
    the first complete padding, and leftover sextets raise.  A byte is an
    [N] below 256; a store into a byte keeps the low eight bits. *)

Definition BASE64_PAD : ascii := "="%char.

Definition table_b2a_base64 : list ascii :=
  list_ascii_of_string
    "ABCDEFGHIJKLMNOPQRSTUVWXYZabcdefghijklmnopqrstuvwxyz0123456789+/".

Definition b2a (v : N) : ascii := nth (N.to_nat v) table_b2a_base64 BASE64_PAD.

Fixpoint position (c : ascii) (table : list ascii) (i : N) : option N :=
  match table with
  | [] => None
  | x :: table' => if Ascii.eqb c x then Some i else position c table' (N.succ i)
  end.

(** [table_a2b_base64[this_ch]]; [None] stands for the entries [>= 64]. *)
Definition a2b (this_ch : ascii) : option N := position this_ch table_b2a_base64 0.

Definition to_byte (x : N) : N := N.land x 255.

Fixpoint b2a_base64 (bin_data : list N) : list ascii :=
  match bin_data with
  | [] => []
  | [b1] =>
      [b2a (N.shiftr b1 2); b2a (N.shiftl (N.land b1 3) 4); BASE64_PAD; BASE64_PAD]
  | [b1; b2] =>
      [b2a (N.shiftr b1 2);
       b2a (N.lor (N.shiftl (N.land b1 3) 4) (N.shiftr b2 4));
       b2a (N.shiftl (N.land b2 15) 2);
       BASE64_PAD]
  | b1 :: b2 :: b3 :: rest =>
      b2a (N.shiftr b1 2)
      :: b2a (N.lor (N.shiftl (N.land b1 3) 4) (N.shiftr b2 4))
      :: b2a (N.lor (N.shiftl (N.land b2 15) 2) (N.shiftr b3 6))
      :: b2a (N.land b3 63)
      :: b2a_base64 rest
  end.

(** The loop of [a2b_base64] with its locals [quad_pos], [leftchar] and
    [pads]; the result lists the bytes written from this point on. *)
Fixpoint a2b_base64_loop (ascii_data : list ascii) (quad_pos : nat)
    (leftchar : N) (pads : nat) : option (list N) :=
  match ascii_data with
  | [] => if decide (quad_pos = 0%nat) then Some [] else None
  | this_ch :: rest =>
      if Ascii.eqb this_ch BASE64_PAD then
        if decide (2 ≤ quad_pos)%nat then
          if decide (4 ≤ quad_pos + S pads)%nat then Some []
          else a2b_base64_loop rest quad_pos leftchar (S pads)
        else a2b_base64_loop rest quad_pos leftchar pads
      else
        match a2b this_ch with
        | None => a2b_base64_loop rest quad_pos leftchar pads
        | Some v =>
            match quad_pos with
            | 0%nat => a2b_base64_loop rest 1 v 0
            | 1%nat =>
                cons (to_byte (N.lor (N.shiftl leftchar 2) (N.shiftr v 4)))
                  <$> a2b_base64_loop rest 2 (N.land v 15) 0
            | 2%nat =>
                cons (to_byte (N.lor (N.shiftl leftchar 4) (N.shiftr v 2)))
                  <$> a2b_base64_loop rest 3 (N.land v 3) 0
            | _ =>
                cons (to_byte (N.lor (N.shiftl leftchar 6) v))
                  <$> a2b_base64_loop rest 0 0 0
            end
        end
  end.

Definition is_ascii (c : ascii) : bool := (N_of_ascii c <? 128)%N.

(** [base64.b64decode(s)] on a [str]: a character outside ASCII raises
    before decoding starts. *)
Definition b64decode (b64_str : string) : option (list N) :=
  let data := list_ascii_of_string b64_str in
  if forallb is_ascii data then a2b_base64_loop data 0 0 0 else None.

(** [base64.b64encode(b).decode("utf-8")] *)
Definition b64encode (combined_bytes : list N) : string :=
  string_of_list_ascii (b2a_base64 combined_bytes).

Definition concatenate_base64_list (base64_strings : list string) : option string :=
  combined_bytes ← mapM b64decode base64_strings;
  Some (b64encode (concat combined_bytes)).

(** * Vocabulary of the statements

    Views of the input that the theorems speak about, the readings of the
    specification that the code is compared with, and sample inputs. *)

(** ** Content merger *)

(** What one choice appends to [content_list]. *)
Definition choice_fragments (k : delta_key) (choice : Choice) : list string :=
  content_choice_step k [] choice.

(** A chunk whose single choice carries an explicit [None] under both
    content keys. *)
Definition null_delta_chunk : Chunk :=
  {| ck_choices :=
       [{| ch_delta := Some {| dl_content := Null; dl_reasoning_content := Null;
                               dl_thinking_blocks := None; dl_tool_calls := [] |};
           ch_finish_reason := Null |}];
     ck_usage := Absent; ck_is_model_response := true;
     ck_hidden_params := {| hp_created_at := None; hp_usage := None |} |}.

Definition content_chunk (text : attr string) (fr : attr string) : Chunk :=
  {| ck_choices :=
       [{| ch_delta := Some {| dl_content := text; dl_reasoning_content := Absent;
                               dl_thinking_blocks := None; dl_tool_calls := [] |};
           ch_finish_reason := fr |}];
     ck_usage := Absent; ck_is_model_response := true;
     ck_hidden_params := {| hp_created_at := None; hp_usage := None |} |}.

(** ** Base-response builder *)

(** What the first choice of a chunk exposes under [finish_reason]:
    nothing, Python's [None] ([Some None]) or a string. *)
Definition exposed_finish_reason (chunk : Chunk) : option (option string) :=
  match ck_choices chunk with
  | [] => None
  | choice0 :: _ =>
      match ch_finish_reason choice0 with
      | Absent => None
      | Null => Some None
      | Present s => Some (Some s)
      end
  end.

(** The reading of the specification: the last non-null value supplied by
    a first choice, and ["stop"] when there is none. *)
Definition finish_reason_as_stated (chunks : list Chunk) : string :=
  default "stop" (last (omap (λ c, mjoin (exposed_finish_reason c)) chunks)).

Definition finish_chunk (fr : attr string) : Chunk :=
  {| ck_choices := [{| ch_delta := None; ch_finish_reason := fr |}];
     ck_usage := Absent; ck_is_model_response := true;
     ck_hidden_params := {| hp_created_at := None; hp_usage := None |} |}.

(** ** Chunk orderer *)

#[local] Instance sort_key_eq_dec : EqDecision sort_key.
Proof. solve_decision. Defined.

Definition created_at (x : Chunk) : option Z := hp_created_at (ck_hidden_params x).

(** Ascending order of the hints, a chunk without hint counting as
    [float("inf")]: it stands after every chunk that has one. *)
Definition hint_le (x y : Chunk) : Prop :=
  match created_at x, created_at y with
  | Some a, Some b => (a ≤ b)%Z
  | _, None => True
  | None, Some _ => False
  end.

(** The test of line 43 on the first chunk. *)
Definition first_hint_populated (chunks : list Chunk) : bool :=
  match chunks with
  | [] => false
  | c0 :: _ => truthy_num (created_at c0)
  end.

Definition hint_chunk (hint : option Z) (fr : attr string) : Chunk :=
  {| ck_choices := [{| ch_delta := None; ch_finish_reason := fr |}];
     ck_usage := Absent; ck_is_model_response := true;
     ck_hidden_params := {| hp_created_at := hint; hp_usage := None |} |}.

(** ** Usage aggregator *)

Definition usage_chunk_of (u : UsageChunk) : Chunk :=
  {| ck_choices := []; ck_usage := Present u; ck_is_model_response := true;
     ck_hidden_params := {| hp_created_at := None; hp_usage := None |} |}.

Definition tokens_usage (prompt completion : option Z)
    (details : option PromptTokensDetailsWrapper) : UsageChunk :=
  {| uc_prompt_tokens := prompt; uc_completion_tokens := completion;
     uc_total_tokens := None;
     uc_cache_creation_input_tokens := None;
     uc_cache_read_input_tokens := None;
     uc_completion_tokens_details := None;
     uc_prompt_tokens_details := details |}.

(** The chunk with the [total_tokens] of its usage records rewritten by
    [total]. *)
Definition set_total_tokens (total : UsageChunk → option Z) (u : UsageChunk)
    : UsageChunk :=
  {| uc_prompt_tokens := uc_prompt_tokens u;
     uc_completion_tokens := uc_completion_tokens u;
     uc_total_tokens := total u;
     uc_cache_creation_input_tokens := uc_cache_creation_input_tokens u;
     uc_cache_read_input_tokens := uc_cache_read_input_tokens u;
     uc_completion_tokens_details := uc_completion_tokens_details u;
     uc_prompt_tokens_details := uc_prompt_tokens_details u |}.

Definition with_total_tokens (total : UsageChunk → option Z) (chunk : Chunk) : Chunk :=
  {| ck_choices := ck_choices chunk;
     ck_usage :=
       match ck_usage chunk with
       | Present u => Present (set_total_tokens total u)
       | Null => Null
       | Absent => Absent
       end;
     ck_is_model_response := ck_is_model_response chunk;
     ck_hidden_params :=
       {| hp_created_at := hp_created_at (ck_hidden_params chunk);
          hp_usage := set_total_tokens total <$> hp_usage (ck_hidden_params chunk) |} |}.

(** A tokenizer that fails on message histories and counts the characters
    of a response text; and one that always fails. *)
Definition text_only_counter (model : string) (messages : option (list string))
    (text : option string) (count_response_tokens : bool) : result string Z :=
  match text with
  | Some t => Ok (Z.of_nat (String.length t))
  | None => Raise "no tokenizer for messages"
  end.

Definition failing_counter (model : string) (messages : option (list string))
    (text : option string) (count_response_tokens : bool) : result string Z :=
  Raise "tokenizer down".

(** ** Thinking-block merger *)

(** A string that Python takes as true. *)
Definition nonempty (o : option string) : option string :=
  match o with
  | Some (String a s) => Some (String a s)
  | _ => None
  end.

Definition choice_blocks (choice : Choice) : list ThinkingBlock :=
  default [] (dl_thinking_blocks (choice_delta choice)).

(** Every [thinking_blocks] entry of the chunk set, in scan order. *)
Definition thinking_blocks_of (chunks : list Chunk) : list ThinkingBlock :=
  flat_map (λ chunk, flat_map choice_blocks (ck_choices chunk)) chunks.

(** The text fragments of the entries of the [thinking] variant. *)
Definition thinking_fragments (blocks : list ThinkingBlock) : list string :=
  omap (λ b, if is_redacted b then None else nonempty (tb_thinking b)) blocks.

(** The reading of the specification: the signature kept is the last
    non-null one, and the redacted variant is emitted whenever it was
    observed and no thinking text with a signature exists. *)
Definition thinking_as_stated (blocks : list ThinkingBlock)
    : option (list ThinkingBlockOut) :=
  let text := nonempty (Some (join (thinking_fragments blocks))) in
  let signature :=
    last (omap (λ b, if is_redacted b then None else nonempty (tb_signature b))
               blocks) in
  let data := last (omap (λ b, if is_redacted b then tb_data b else None) blocks) in
  match text, signature with
  | Some t, Some s => Some [ChatCompletionThinkingBlock t s]
  | _, _ =>
      match data with
      | Some d => Some [ChatCompletionRedactedThinkingBlock d]
      | None => None
      end
  end.

Definition thinking_chunk (blocks : list ThinkingBlock) : Chunk :=
  {| ck_choices :=
       [{| ch_delta := Some {| dl_content := Absent; dl_reasoning_content := Absent;
                               dl_thinking_blocks := Some blocks;
                               dl_tool_calls := [] |};
           ch_finish_reason := Null |}];
     ck_usage := Absent; ck_is_model_response := true;
     ck_hidden_params := {| hp_created_at := None; hp_usage := None |} |}.

Definition thinking_block (text signature : option string) : ThinkingBlock :=
  {| tb_type := Some "thinking"; tb_thinking := text;
     tb_signature := signature; tb_data := None |}.

(** ** Tool-call merger *)

Definition choice_entries (choice : Choice) : list (option ToolCallDelta) :=
  dl_tool_calls (choice_delta choice).

(** Every entry of every [delta.tool_calls], in scan order. *)
Definition tool_call_entries (chunks : list Chunk) : list (option ToolCallDelta) :=
  flat_map (λ chunk, flat_map choice_entries (ck_choices chunk)) chunks.

(** The entries that pass the guard of line 130. *)
Definition scanned_entries (chunks : list Chunk) : list ToolCallDelta :=
  omap scanned (tool_call_entries chunks).

Definition at_index (i : Z) (tool_calls : list ToolCallDelta) : list ToolCallDelta :=
  filter (λ tool_call, index_of tool_call = i) tool_calls.

(** The non-empty values an entry carries. *)
Definition id_of (tool_call : ToolCallDelta) : option string :=
  nonempty (tc_id tool_call).

Definition type_of (tool_call : ToolCallDelta) : option string :=
  nonempty (tc_type tool_call).

Definition function_of (tool_call : ToolCallDelta) : option FunctionDelta :=
  match tc_function tool_call with
  | Present f => Some f
  | _ => None
  end.

Definition name_of (tool_call : ToolCallDelta) : option string :=
  f ← function_of tool_call; nonempty (fn_name f).

Definition arguments_of (tool_call : ToolCallDelta) : option string :=
  f ← function_of tool_call; nonempty (fn_arguments f).

(** The values of one field observed at index [i], in arrival order, on
    the entries the merger scans. *)
Definition observed (field : ToolCallDelta → option string)
    (chunks : list Chunk) (i : Z) : list string :=
  omap field (at_index i (scanned_entries chunks)).

(** The literal reading of the specification: the values of one field
    carried at index [i] by any entry of the chunk set, scanned or not. *)
Definition carried (field : ToolCallDelta → option string)
    (chunks : list Chunk) (i : Z) : list string :=
  omap field (at_index i (omap (λ entry, entry) (tool_call_entries chunks))).

(** The tool call assembled for index [i]. *)
Definition merged_call (chunks : list Chunk) (i : Z) : ChatCompletionMessageToolCall :=
  {| tcall_id := default "" (last (observed id_of chunks i));
     tcall_function :=
       {| f_arguments :=
            match observed arguments_of chunks i with
            | [] => "{}"
            | fragments => join fragments
            end;
          f_name := default "" (last (observed name_of chunks i)) |};
     tcall_type := default "function" (last (observed type_of chunks i)) |}.

Definition or_else {A} (new old : option A) : option A :=
  match new with
  | Some x => Some x
  | None => old
  end.

Definition acc_of (tool_calls : list ToolCallDelta) (acc : ToolCallAcc) : ToolCallAcc :=
  fold_left (λ acc tool_call, update_acc tool_call acc) tool_calls acc.

(** The tool call assembled from the entries of one index. *)
Definition merged_of (tool_calls : list ToolCallDelta) : ChatCompletionMessageToolCall :=
  {| tcall_id := default "" (last (omap id_of tool_calls));
     tcall_function :=
       {| f_arguments :=
            match omap arguments_of tool_calls with
            | [] => "{}"
            | fragments => join fragments
            end;
          f_name := default "" (last (omap name_of tool_calls)) |};
     tcall_type := default "function" (last (omap type_of tool_calls)) |}.

(** An entry that is falsy or has no [function] attribute. *)
Definition ignored (entry : option ToolCallDelta) : bool :=
  match entry with
  | None => true
  | Some tool_call =>
      match tc_function tool_call with
      | Absent => true
      | _ => false
      end
  end.

(** The chunk set with every ignored entry removed from every delta. *)
Definition drop_ignored_delta (delta : Delta) : Delta :=
  {| dl_content := dl_content delta;
     dl_reasoning_content := dl_reasoning_content delta;
     dl_thinking_blocks := dl_thinking_blocks delta;
     dl_tool_calls := filter (λ e, ignored e = false) (dl_tool_calls delta) |}.

Definition drop_ignored_choice (choice : Choice) : Choice :=
  {| ch_delta := drop_ignored_delta <$> ch_delta choice;
     ch_finish_reason := ch_finish_reason choice |}.

Definition drop_ignored (chunk : Chunk) : Chunk :=
  {| ck_choices := drop_ignored_choice <$> ck_choices chunk;
     ck_usage := ck_usage chunk;
     ck_is_model_response := ck_is_model_response chunk;
     ck_hidden_params := ck_hidden_params chunk |}.

Definition tool_chunk (entries : list (option ToolCallDelta)) : Chunk :=
  {| ck_choices :=
       [{| ch_delta := Some {| dl_content := Null; dl_reasoning_content := Absent;
                               dl_thinking_blocks := None;
                               dl_tool_calls := entries |};
           ch_finish_reason := Null |}];
     ck_usage := Absent; ck_is_model_response := true;
     ck_hidden_params := {| hp_created_at := None; hp_usage := None |} |}.

(** ** Audio merger *)

Definition is_byte (b : N) : Prop := (b < 256)%N.

(** First, second and third sextet of a group; the fourth is
    [N.land b3 63]. *)
Definition sextet1 (b1 : N) : N := N.shiftr b1 2.
Definition sextet2 (b1 b2 : N) : N := N.lor (N.shiftl (N.land b1 3) 4) (N.shiftr b2 4).
Definition sextet3 (b2 b3 : N) : N := N.lor (N.shiftl (N.land b2 15) 2) (N.shiftr b3 6).
Definition sextet4 (b3 : N) : N := N.land b3 63.

Definition below (n : nat) : list N := map N.of_nat (seq 0 n).

(** * The other functions of the module

    The functions below read keys that the mergers above never touch: the
    identity of a chunk, the [role], the legacy [function_call] and the
    [audio] of a delta.  [ChunkX] is a chunk with these keys; [chunk_of]
    forgets them, so that the functions above apply to it. *)

(** The exceptions the code can raise. *)
Inductive PyError :=
| IndexError
| KeyError
| AttributeError
| TypeError
| ValueError.

(** The legacy [delta.function_call]. *)
Record FunctionCallDelta := {
  fcd_name : option string;
  fcd_arguments : option string;
}.

(** [delta.audio]; a field is [None] when the key is missing, holds
    [None], or holds a value that fails the [isinstance] test of lines
    304-310. *)
Record AudioDelta := {
  au_data : option string;
  au_transcript : option string;
  au_expires_at : option Z;
  au_id : option string;
}.

(** [dx_role] is [Absent] when the delta has no [role] key at all.
    [dx_function_call] and [dx_audio] are [None] when the key is missing
    or holds a falsy value. *)
Record DeltaX := {
  dx_delta : Delta;
  dx_role : attr string;
  dx_function_call : option FunctionCallDelta;
  dx_audio : option AudioDelta;
}.

(** [cx_delta] is [None] when the choice has no [delta] key. *)
Record ChoiceX := {
  cx_delta : option DeltaX;
  cx_finish_reason : attr string;
}.

(** A chunk that carries the keys [object], [created], [model] and
    [choices], which the code reads by subscript; [kx_id] is
    [chunk.get("id")]. *)
Record ChunkX := {
  kx_id : option string;
  kx_object : string;
  kx_created : Z;
  kx_model : string;
  kx_system_fingerprint : option string;
  kx_choices : list ChoiceX;
  kx_usage : attr UsageChunk;
  kx_is_model_response : bool;
  kx_hidden_params : HiddenParams;
}.

Definition choice_of (choice : ChoiceX) : Choice :=
  {| ch_delta := dx_delta <$> cx_delta choice;
     ch_finish_reason := cx_finish_reason choice |}.

Definition chunk_of (chunk : ChunkX) : Chunk :=
  {| ck_choices := choice_of <$> kx_choices chunk;
     ck_usage := kx_usage chunk;
     ck_is_model_response := kx_is_model_response chunk;
     ck_hidden_params := kx_hidden_params chunk |}.

(** ** Construction *)

(** Lines 40-47 at any chunk type: [hidden] reads [x._hidden_params]. *)
Definition sort_by_created_at {A} (hidden : A → HiddenParams) (chunks : list A)
    : list A :=
  match chunks with
  | [] => []
  | c0 :: _ =>
      if truthy_num (hp_created_at (hidden c0))
      then py_sorted
             (λ x, match hp_created_at (hidden x) with
                   | Some t => Finite t
                   | None => Infinity
                   end)
             key_lt chunks
      else chunks
  end.

Record ChunkProcessor {Messages : Type} := {
  cp_chunks : list ChunkX;
  cp_messages : option Messages;
  cp_first_chunk : ChunkX;
}.
Arguments ChunkProcessor : clear implicits.

(** Lines 35-38: [chunks[0]] raises on the empty list, after the sort. *)
Definition __init__ {Messages} (chunks : list ChunkX) (messages : option Messages)
    : result PyError (ChunkProcessor Messages) :=
  let sorted := sort_by_created_at kx_hidden_params chunks in
  match chunks with
  | [] => Raise IndexError
  | first_chunk :: _ =>
      Ok {| cp_chunks := sorted; cp_messages := messages;
            cp_first_chunk := first_chunk |}
  end.

(** ** Base-response builder *)

(** Lines 59-68 *)
Fixpoint _get_chunk_id (chunks : list ChunkX) : string :=
  match chunks with
  | [] => ""
  | chunk :: chunks' =>
      match kx_id chunk with
      | Some (String a s) => String a s
      | _ => _get_chunk_id chunks'
      end
  end.


(** The empty dictionary as [_hidden_params]. *)
Definition no_hidden_params : HiddenParams :=
  {| hp_created_at := None; hp_usage := None |}.





(** ** Legacy function-call merger *)

Record FunctionCall := {
  fc_name : option string;
  fc_arguments : string;
}.

(** [delta.get("function_call", "")] on [choice.get("delta", {})]. *)
Definition function_call_of (choice : ChoiceX) : option FunctionCallDelta :=
  cx_delta choice ≫= dx_function_call.

(** Lines 182-184: the name is read from the first choice of the first
    chunk; a falsy [function_call] has no [name] attribute. *)
Definition first_function_call_name (function_call_chunks : list ChunkX)
    : result PyError (option string) :=
  match function_call_chunks with
  | [] => Raise IndexError
  | chunk0 :: _ =>
      match kx_choices chunk0 with
      | [] => Raise IndexError
      | choice0 :: _ =>
          match cx_delta choice0 with
          | None => Raise KeyError
          | Some delta =>
              match dx_function_call delta with
              | None => Raise AttributeError
              | Some function_call => Ok (fcd_name function_call)
              end
          end
      end
  end.

Definition function_call_choice_step (argument_list : list (option string))
    (choice : ChoiceX) : list (option string) :=
  match function_call_of choice with
  | Some function_call => argument_list ++ [fcd_arguments function_call]
  | None => argument_list
  end.

Definition function_call_chunk_step (argument_list : list (option string))
    (chunk : ChunkX) : list (option string) :=
  fold_left function_call_choice_step (kx_choices chunk) argument_list.

(** ["".join(l)] raises when an element of [l] is [None]. *)
Definition join_checked (l : list (option string)) : result PyError string :=
  match mapM (λ x, x) l with
  | Some strings => Ok (join strings)
  | None => Raise TypeError
  end.

(** Lines 178-203 *)
Definition get_combined_function_call_content (function_call_chunks : list ChunkX)
    : result PyError FunctionCall :=
  match first_function_call_name function_call_chunks with
  | Raise e => Raise e
  | Ok function_call_name =>
      let argument_list :=
        fold_left function_call_chunk_step function_call_chunks [] in
      match join_checked argument_list with
      | Raise e => Raise e
      | Ok combined_arguments =>
          Ok {| fc_name := function_call_name; fc_arguments := combined_arguments |}
      end
  end.

(** ** Audio merger *)

(** The locals of the scan of lines 292-311. *)
Record AudioState := {
  base64_data_list : list string;
  transcript_list : list string;
  as_expires_at : option Z;
  as_id : option string;
}.

Definition audio_init : AudioState :=
  {| base64_data_list := []; transcript_list := [];
     as_expires_at := None; as_id := None |}.

(** One pass over [audio.items()]: each key writes a variable of its own,
    so the order of the keys is immaterial. *)
Definition audio_step (st : AudioState) (audio : AudioDelta) : AudioState :=
  {| base64_data_list :=
       match au_data audio with
       | Some v => base64_data_list st ++ [v]
       | None => base64_data_list st
       end;
     transcript_list :=
       match au_transcript audio with
       | Some v => transcript_list st ++ [v]
       | None => transcript_list st
       end;
     as_expires_at :=
       match au_expires_at audio with
       | Some v => Some v
       | None => as_expires_at st
       end;
     as_id :=
       match au_id audio with
       | Some v => Some v
       | None => as_id st
       end |}.

(** [(choice.get("delta") or {}).get("audio")] *)
Definition audio_of (choice : ChoiceX) : option AudioDelta :=
  cx_delta choice ≫= dx_audio.

Definition audio_choice_step (st : AudioState) (choice : ChoiceX) : AudioState :=
  match audio_of choice with
  | Some audio => audio_step st audio
  | None => st
  end.

Definition audio_chunk_step (st : AudioState) (chunk : ChunkX) : AudioState :=
  fold_left audio_choice_step (kx_choices chunk) st.

(** Modelled from the spec: the [ChatCompletionAudioResponse] class is
    declared outside the given sources; the record holds the four
    arguments its constructor is called with. *)
Record ChatCompletionAudioResponse := {
  ar_data : string;
  ar_expires_at : Z;
  ar_transcript : string;
  ar_id : option string;
}.

(** Lines 289-319.  [in_one_hour] is the value of
    [int(time.time() + 3600)] at the time of the call. *)
Definition get_combined_audio_content (in_one_hour : Z) (chunks : list ChunkX)
    : result PyError ChatCompletionAudioResponse :=
  let st := fold_left audio_chunk_step chunks audio_init in
  match concatenate_base64_list (base64_data_list st) with
  | None => Raise ValueError
  | Some concatenated_audio =>
      Ok {| ar_data := concatenated_audio;
            ar_expires_at :=
              match as_expires_at st with
              | Some v => if (v =? 0)%Z then in_one_hour else v
              | None => in_one_hour
              end;
            ar_transcript := join (transcript_list st);
            ar_id := as_id st |}
  end.

(** ** Reasoning tokens *)

(** A choice of an assembled response, as far as [count_reasoning_tokens]
    reads it: [message.reasoning_content], [None] when the attribute is
    missing or holds [None]. *)
Record Message := {
  msg_reasoning_content : option string;
}.

Record Choices := {
  choices_message : Message;
}.

Section CountReasoningTokens.
(** [default_model] is the default of the [model] parameter of
    [token_counter], which line 373 leaves out. *)
Context {Messages E : Type}.
Variable token_counter :
  string → option Messages → option string → bool → result E Z.
Variable default_model : string.

Definition count_reasoning_step (reasoning_tokens : result E Z) (choice : Choices)
    : result E Z :=
  match reasoning_tokens with
  | Raise e => Raise e
  | Ok n =>
      match msg_reasoning_content (choices_message choice) with
      | None => Ok n
      | Some text =>
          match token_counter default_model None (Some text) true with
          | Ok k => Ok (n + k)%Z
          | Raise e => Raise e
          end
      end
  end.

(** Lines 366-378; [response_choices] is [response.choices]. *)
Definition count_reasoning_tokens (response_choices : list Choices) : result E Z :=
  fold_left count_reasoning_step response_choices (Ok 0%Z).

End CountReasoningTokens.

(** ** Vocabulary of the further statements *)

(** The usage records of the chunks that carry one, in scan order. *)
Definition usage_records (chunks : list Chunk) : list UsageChunk :=
  omap usage_of_chunk chunks.

(** The last strictly positive value of a list, [None] when there is none. *)
Definition last_positive (values : list Z) : option Z :=
  last (filter (λ v, 0 < v)%Z values).

Definition web_search_requests_of (u : UsageChunk) : option Z :=
  uc_prompt_tokens_details u ≫= ptd_web_search_requests.

(** The [id] of a chunk, when it is non-empty. *)
Definition chunk_id (chunk : ChunkX) : option string := nonempty (kx_id chunk).

(** The truthy [function_call] deltas of the chunk set, in scan order. *)
Definition function_calls_of (chunks : list ChunkX) : list FunctionCallDelta :=
  flat_map (λ chunk, omap function_call_of (kx_choices chunk)) chunks.

(** The [audio] deltas of the chunk set, in scan order. *)
Definition audios_of (chunks : list ChunkX) : list AudioDelta :=
  flat_map (λ chunk, omap audio_of (kx_choices chunk)) chunks.

(** The strings that appear in an emitted tool call. *)
Definition nonempty_call (call : ChatCompletionMessageToolCall) : Prop :=
  tcall_id call ≠ "" ∧ f_name (tcall_function call) ≠ ""
  ∧ f_arguments (tcall_function call) ≠ "" ∧ tcall_type call ≠ "".

(** Sample inputs. *)
Definition entry_at (i : Z) (id name arguments : option string) : option ToolCallDelta :=
  Some {| tc_index := Some i; tc_id := id; tc_type := None;
          tc_function := Present {| fn_name := name; fn_arguments := arguments |} |}.

Definition usage_with (prompt completion : Z) : Chunk :=
  usage_chunk_of (tokens_usage (Some prompt) (Some completion) None).

(** A chunk of one choice whose delta carries the given legacy function
    call. *)
Definition function_call_chunk (name arguments : option string) : ChunkX :=
  {| kx_id := Some "chatcmpl-1"; kx_object := "chat.completion.chunk";
     kx_created := 1; kx_model := "m"; kx_system_fingerprint := None;
     kx_choices :=
       [{| cx_delta :=
             Some {| dx_delta := empty_delta; dx_role := Present "assistant";
                     dx_function_call :=
                       Some {| fcd_name := name; fcd_arguments := arguments |};
                     dx_audio := None |};
           cx_finish_reason := Absent |}];
     kx_usage := Absent; kx_is_model_response := true;
     kx_hidden_params := no_hidden_params |}.

Definition nonneg_counter (model : string) (messages : option (list string))
    (text : option string) (count_response_tokens : bool) : result string Z :=
  match text with
  | Some t => Ok (Z.of_nat (String.length t))
  | None => Ok 3%Z
  end.

(** * Properties *)

(** ** Strings and joins *)

Lemma append_String (a : ascii) (s t : string) :
  String a s +:+ t = String a (s +:+ t).
Proof. reflexivity. Qed.

Lemma append_empty_r (s : string) : s +:+ "" = s.
Proof. induction s as [|a s IH]; [done | by rewrite append_String, IH]. Qed.

Lemma append_assoc' (s1 s2 s3 : string) : (s1 +:+ s2) +:+ s3 = s1 +:+ (s2 +:+ s3).
Proof. induction s1 as [|a s1 IH]; [done | by rewrite !append_String, IH]. Qed.

Lemma join_cons (x : string) (l : list string) : join (x :: l) = x +:+ join l.
Proof.
  unfold join. destruct l as [|y l]; cbn [String.concat].
  - symmetry. apply append_empty_r.
  - done.
Qed.

Lemma join_app (l1 l2 : list string) : join (l1 ++ l2) = join l1 +:+ join l2.
Proof.
  induction l1 as [|x l1 IH].
  - done.
  - rewrite <- app_comm_cons, !join_cons, IH. by rewrite append_assoc'.
Qed.

Lemma join_nonempty (l : list string) :
  Forall (λ s, s ≠ "") l → l ≠ [] → join l ≠ "".
Proof.
  intros Hall Hne. destruct l as [|x l]; [done|].
  rewrite join_cons. apply Forall_cons in Hall as [Hx _].
  destruct x; [done | discriminate].
Qed.

(** ** Content merger *)

Section Content.
Variable k : delta_key.

Lemma content_choice_step_acc acc choice :
  content_choice_step k acc choice = acc ++ choice_fragments k choice.
Proof.
  unfold choice_fragments, content_choice_step.
  destruct (delta_get _ _); simpl; by rewrite ?app_nil_r.
Qed.

Lemma content_choices_acc choices acc :
  fold_left (content_choice_step k) choices acc
  = acc ++ fold_left (content_choice_step k) choices [].
Proof.
  revert acc. induction choices as [|c cs IH]; intros acc; simpl.
  - by rewrite app_nil_r.
  - rewrite IH, (IH (content_choice_step k [] c)).
    rewrite (content_choice_step_acc acc). by rewrite app_assoc.
Qed.

Lemma content_chunks_acc chunks acc :
  fold_left (content_chunk_step k) chunks acc
  = acc ++ fold_left (content_chunk_step k) chunks [].
Proof.
  revert acc. induction chunks as [|c cs IH]; intros acc; simpl.
  - by rewrite app_nil_r.
  - rewrite IH, (IH (content_chunk_step k [] c)).
    unfold content_chunk_step at 1. rewrite content_choices_acc.
    by rewrite app_assoc.
Qed.

End Content.

(** C9. The content merge is a homomorphism from chunk sequences under
    concatenation to strings under concatenation: merging [chunks1 ++
    chunks2] gives the merge of [chunks1] followed by the merge of
    [chunks2], for either delta key; and a chunk whose delta holds an
    explicit null contributes nothing wherever it stands. *)
Theorem get_combined_content_app (chunks1 chunks2 : list Chunk) (k : delta_key) :
  get_combined_content (chunks1 ++ chunks2) k
  = get_combined_content chunks1 k +:+ get_combined_content chunks2 k
  ∧ get_combined_content (chunks1 ++ null_delta_chunk :: chunks2) k
    = get_combined_content (chunks1 ++ chunks2) k.
Proof.
  assert (Happ : ∀ l1 l2, get_combined_content (l1 ++ l2) k
                 = get_combined_content l1 k +:+ get_combined_content l2 k).
  { intros l1 l2. unfold get_combined_content.
    rewrite fold_left_app, content_chunks_acc. apply join_app. }
  split; [apply Happ|].
  rewrite !Happ. f_equal.
  change (null_delta_chunk :: chunks2) with ([null_delta_chunk] ++ chunks2).
  rewrite Happ. by destruct k.
Qed.

(** The scenario of the specification: three chunks merge to ["Hello"]
    with [finish_reason = "stop"]. *)
Example get_combined_content_hello :
  let chunks := [content_chunk (Present "Hel") Null;
                 content_chunk (Present "lo") Null;
                 content_chunk (Present "") (Present "stop")] in
  get_combined_content chunks content = "Hello"
  ∧ build_base_response_finish_reason chunks = Some "stop".
Proof. by vm_compute. Qed.

(** ** Base-response builder *)

Lemma finish_reason_step_exposed (finish_reason : option string) (chunk : Chunk) :
  finish_reason_step finish_reason chunk
  = default finish_reason (exposed_finish_reason chunk).
Proof.
  unfold finish_reason_step, exposed_finish_reason.
  destruct (ck_choices chunk) as [|c0 ?]; [done|].
  by destruct (ch_finish_reason c0).
Qed.

(** C4, amended. The [finish_reason] handed to the base response is the
    value exposed by the first choice of the last chunk that has a first
    choice exposing one, a null value included; it is ["stop"] when no
    chunk exposes one. *)
Theorem build_base_response_finish_reason_last (chunks : list Chunk) :
  build_base_response_finish_reason chunks
  = default (Some "stop") (last (omap exposed_finish_reason chunks)).
Proof.
  unfold build_base_response_finish_reason.
  induction chunks as [|c chunks IH] using rev_ind; [done|].
  rewrite fold_left_app, omap_app. simpl.
  rewrite finish_reason_step_exposed, IH.
  destruct (exposed_finish_reason c) as [v|]; simpl.
  - by rewrite last_snoc.
  - by rewrite app_nil_r.
Qed.

(** C4 fails as stated: after a chunk finishing with ["length"], a chunk
    whose first choice has a null [finish_reason] resets the scan, so the
    last non-null value is not kept.  The same null is left after a chunk
    finishing with ["tool_calls"], so nothing computed from the result of
    the scan can restore the last non-null value. *)
Lemma build_base_response_finish_reason_not_last_non_null :
  let chunks := [finish_chunk (Present "length"); finish_chunk Null] in
  let chunks' := [finish_chunk (Present "tool_calls"); finish_chunk Null] in
  finish_reason_as_stated chunks = "length"
  ∧ finish_reason_as_stated chunks' = "tool_calls"
  ∧ build_base_response_finish_reason chunks = None
  ∧ build_base_response_finish_reason chunks' = None
  ∧ build_base_response_finish_reason chunks
    ≠ Some (finish_reason_as_stated chunks).
Proof. repeat split; discriminate. Qed.

(** ** Chunk orderer *)

Section PySortedFacts.
Context {A K : Type} `{EqDecision K} (key : A → K) (lt : K → K → bool).
Hypothesis lt_irrefl : ∀ a, lt a a = false.
Hypothesis lt_asym : ∀ a b, lt a b = true → lt b a = false.
Hypothesis le_trans : ∀ a b c, lt b a = false → lt c b = false → lt c a = false.

Lemma sorted_insert_perm (x : A) (l : list A) : sorted_insert key lt x l ≡ₚ x :: l.
Proof.
  induction l as [|y l IH]; simpl; [done|].
  destruct (lt (key y) (key x)); [|done].
  rewrite IH. apply Permutation_swap.
Qed.

Lemma py_sorted_perm (l : list A) : py_sorted key lt l ≡ₚ l.
Proof.
  induction l as [|x l IH]; simpl; [done|].
  by rewrite sorted_insert_perm, IH.
Qed.

Lemma sorted_insert_sorted (x : A) (l : list A) :
  StronglySorted (key_le key lt) l → StronglySorted (key_le key lt) (sorted_insert key lt x l).
Proof using lt_asym le_trans.
  induction 1 as [|y l Hl IH Hy]; simpl.
  - repeat constructor.
  - destruct (lt (key y) (key x)) eqn:Hyx.
    + constructor; [done|].
      rewrite sorted_insert_perm. constructor; [|done].
      unfold key_le. by apply lt_asym.
    + constructor; [by constructor|].
      constructor; [done|].
      eapply Forall_impl; [exact Hy|].
      intros z Hz. unfold key_le in *. by eapply le_trans.
Qed.

Lemma py_sorted_sorted (l : list A) : StronglySorted (key_le key lt) (py_sorted key lt l).
Proof using lt_asym le_trans.
  induction l as [|x l IH]; simpl; [constructor|].
  by apply sorted_insert_sorted.
Qed.

Lemma sorted_insert_stable (k0 : K) (x : A) (l : list A) :
  filter (λ y, key y = k0) (sorted_insert key lt x l)
  = filter (λ y, key y = k0) (x :: l).
Proof using lt_irrefl.
  induction l as [|y l IH]; simpl; [done|].
  destruct (lt (key y) (key x)) eqn:Hyx; [|done].
  rewrite filter_cons, IH, !filter_cons.
  destruct (decide (key y = k0)) as [Hy|]; [|done].
  destruct (decide (key x = k0)) as [Hx|]; [|done].
  rewrite Hy, Hx, lt_irrefl in Hyx. discriminate.
Qed.

Lemma py_sorted_stable (k0 : K) (l : list A) :
  filter (λ y, key y = k0) (py_sorted key lt l) = filter (λ y, key y = k0) l.
Proof using lt_irrefl.
  induction l as [|x l IH]; simpl; [done|].
  by rewrite sorted_insert_stable, !filter_cons, IH.
Qed.

End PySortedFacts.

Lemma StronglySorted_mono {A} (R1 R2 : A → A → Prop) (l : list A) :
  (∀ x y, R1 x y → R2 x y) → StronglySorted R1 l → StronglySorted R2 l.
Proof.
  intros HR. induction 1 as [|x l Hl IH Hx]; constructor; [done|].
  eapply Forall_impl; [exact Hx | apply HR].
Qed.

Lemma key_lt_irrefl (a : sort_key) : key_lt a a = false.
Proof. destruct a; simpl; [apply Z.ltb_irrefl | done]. Qed.

Lemma key_lt_asym (a b : sort_key) : key_lt a b = true → key_lt b a = false.
Proof. destruct a, b; simpl; try done. rewrite Z.ltb_lt, Z.ltb_ge. lia. Qed.

Lemma key_le_trans (a b c : sort_key) :
  key_lt b a = false → key_lt c b = false → key_lt c a = false.
Proof. destruct a, b, c; simpl; try done. rewrite !Z.ltb_ge. lia. Qed.

Lemma key_le_hint_le (x y : Chunk) : key_le created_at_key key_lt x y → hint_le x y.
Proof.
  unfold key_le, hint_le, created_at_key, created_at.
  destruct (hp_created_at _), (hp_created_at _); simpl; try done.
  by rewrite Z.ltb_ge.
Qed.

Lemma created_at_key_inj (x : Chunk) (h : option Z) :
  created_at x = h
  ↔ created_at_key x = match h with Some t => Finite t | None => Infinity end.
Proof.
  unfold created_at_key, created_at.
  destruct (hp_created_at _), h; naive_solver.
Qed.

(** C3, amended. The orderer looks at the hint of the first chunk only.
    When that hint is populated (present and non-zero) the output is the
    input stably sorted by ascending hint, a chunk without a hint being
    ordered as infinity: the output is a permutation of the input, it is
    ascending for [hint_le], and chunks of equal hint keep their arrival
    order.  When the first chunk has no populated hint, or the sequence is
    empty, the output is the input unchanged. *)
Theorem _sort_chunks_spec (chunks : list Chunk) :
  (first_hint_populated chunks = true →
     _sort_chunks chunks ≡ₚ chunks
     ∧ StronglySorted hint_le (_sort_chunks chunks)
     ∧ ∀ h : option Z,
         filter (λ c, created_at c = h) (_sort_chunks chunks)
         = filter (λ c, created_at c = h) chunks)
  ∧ (first_hint_populated chunks = false → _sort_chunks chunks = chunks).
Proof.
  split; intros Hfirst; destruct chunks as [|c0 chunks]; try done.
  - unfold _sort_chunks. unfold first_hint_populated, created_at in Hfirst.
    rewrite Hfirst. split; [|split].
    + apply py_sorted_perm.
    + eapply StronglySorted_mono; [| apply py_sorted_sorted ].
      * intros x y. apply key_le_hint_le.
      * apply key_lt_asym.
      * apply key_le_trans.
    + intros h.
      rewrite (list_filter_iff _ _ _ (λ c, created_at_key_inj c h)).
      rewrite (list_filter_iff _ _ (c0 :: chunks) (λ c, created_at_key_inj c h)).
      apply py_sorted_stable, key_lt_irrefl.
  - unfold _sort_chunks. unfold first_hint_populated, created_at in Hfirst.
    by rewrite Hfirst.
Qed.

(** C3 fails as stated: the second of these three chunks carries no hint,
    yet the sequence is not returned in arrival order; the chunk without
    hint is moved behind the two others, which are sorted. *)
Lemma _sort_chunks_partial_hints_reordered :
  let c5 := hint_chunk (Some 5%Z) Null in
  let c_ := hint_chunk None Null in
  let c3 := hint_chunk (Some 3%Z) Null in
  ¬ Forall (λ c, truthy_num (created_at c) = true) [c5; c_; c3]
  ∧ _sort_chunks [c5; c_; c3] = [c3; c5; c_]
  ∧ _sort_chunks [c5; c_; c3] ≠ [c5; c_; c3].
Proof.
  repeat split.
  - intros H. apply Forall_cons in H as [_ H]. by apply Forall_cons in H as [H _].
  - discriminate.
Qed.

(** Fully hinted chunks are sorted by hint, and the two chunks of hint 3
    keep their arrival order. *)
Example _sort_chunks_stable :
  _sort_chunks [hint_chunk (Some 7%Z) Null;
                hint_chunk (Some 3%Z) (Present "first");
                hint_chunk (Some 3%Z) (Present "second");
                hint_chunk (Some 1%Z) Null]
  = [hint_chunk (Some 1%Z) Null;
     hint_chunk (Some 3%Z) (Present "first");
     hint_chunk (Some 3%Z) (Present "second");
     hint_chunk (Some 7%Z) Null].
Proof. reflexivity. Qed.

(** ** Usage aggregator: the scan *)

Lemma _calculate_usage_per_chunk_snoc (chunks : list Chunk) (chunk : Chunk) :
  _calculate_usage_per_chunk (chunks ++ [chunk])
  = usage_step (_calculate_usage_per_chunk chunks) chunk.
Proof. unfold _calculate_usage_per_chunk. by rewrite fold_left_app. Qed.

Lemma override_positive_spec (v running : Z) :
  override_positive v running = if decide (0 < v)%Z then v else running.
Proof.
  unfold override_positive.
  destruct (Z.ltb_spec 0 v); case_decide; done || lia.
Qed.

Lemma override_cache_spec (new running : option Z) :
  override_cache new running
  = match new with
    | Some v => if decide ((0 < v)%Z ∨ running = None) then Some v else running
    | None => running
    end.
Proof.
  destruct new as [v|]; [|done]. unfold override_cache.
  destruct (Z.ltb_spec 0 v); simpl.
  - rewrite decide_True; auto.
  - case_bool_decide.
    + rewrite decide_True; auto.
    + rewrite decide_False; [done|]. intros [?|?]; [lia|done].
Qed.

Lemma usage_step_total (total : UsageChunk → option Z) (st : UsagePerChunk)
    (chunk : Chunk) :
  usage_step st (with_total_tokens total chunk) = usage_step st chunk.
Proof.
  unfold usage_step, usage_of_chunk, with_total_tokens. simpl.
  destruct (ck_usage chunk) as [| |u]; [|done..].
  destruct (ck_is_model_response chunk); [|done].
  by destruct (hp_usage (ck_hidden_params chunk)).
Qed.

(** The scan does not read the [total_tokens] of the usage records. *)
Lemma _calculate_usage_per_chunk_total (total : UsageChunk → option Z)
    (chunks : list Chunk) :
  _calculate_usage_per_chunk (with_total_tokens total <$> chunks)
  = _calculate_usage_per_chunk chunks.
Proof.
  unfold _calculate_usage_per_chunk. generalize usage_init.
  induction chunks as [|c cs IH]; intros st; [done|].
  rewrite fmap_cons. cbn [fold_left]. by rewrite usage_step_total, IH.
Qed.

(** The running counters never go below zero: they start at zero and are
    only replaced by positive values. *)
Lemma _calculate_usage_per_chunk_nonneg (chunks : list Chunk) :
  (0 ≤ upc_prompt_tokens (_calculate_usage_per_chunk chunks))%Z
  ∧ (0 ≤ upc_completion_tokens (_calculate_usage_per_chunk chunks))%Z.
Proof.
  induction chunks as [|c chunks [IHp IHc]] using rev_ind; [done|].
  rewrite _calculate_usage_per_chunk_snoc. unfold usage_step.
  destruct (usage_of_chunk c) as [u|]; [|done]. simpl.
  rewrite !override_positive_spec.
  split; case_decide; lia.
Qed.

(** C2, amended. Let [chunk] carry the usage record [u] after the chunks
    scanned so far.  [prompt_tokens] and [completion_tokens] are replaced
    by the value of [u] exactly when it is present and strictly positive.
    The two cache counters are replaced by the value of [u] exactly when it
    is present and either strictly positive or the running value is still
    unset.  In every other case the running value stays.
    [prompt_tokens_details] is not under this rule: details carried by [u]
    replace the running value, set or not. *)
Theorem _calculate_usage_per_chunk_override
    (chunks : list Chunk) (chunk : Chunk) (u : UsageChunk) :
  usage_of_chunk chunk = Some u →
  let running := _calculate_usage_per_chunk chunks in
  let final := _calculate_usage_per_chunk (chunks ++ [chunk]) in
  upc_prompt_tokens final
    = match uc_prompt_tokens u with
      | Some v => if decide (0 < v)%Z then v else upc_prompt_tokens running
      | None => upc_prompt_tokens running
      end
  ∧ upc_completion_tokens final
    = match uc_completion_tokens u with
      | Some v => if decide (0 < v)%Z then v else upc_completion_tokens running
      | None => upc_completion_tokens running
      end
  ∧ upc_cache_creation_input_tokens final
    = match uc_cache_creation_input_tokens u with
      | Some v =>
          if decide ((0 < v)%Z ∨ upc_cache_creation_input_tokens running = None)
          then Some v else upc_cache_creation_input_tokens running
      | None => upc_cache_creation_input_tokens running
      end
  ∧ upc_cache_read_input_tokens final
    = match uc_cache_read_input_tokens u with
      | Some v =>
          if decide ((0 < v)%Z ∨ upc_cache_read_input_tokens running = None)
          then Some v else upc_cache_read_input_tokens running
      | None => upc_cache_read_input_tokens running
      end
  ∧ (∀ details, uc_prompt_tokens_details u = Some details →
       upc_prompt_tokens_details final = Some details).
Proof.
  intros Hu running final. subst final.
  rewrite _calculate_usage_per_chunk_snoc. fold running.
  unfold usage_step. rewrite Hu. simpl.
  rewrite !override_positive_spec, !override_cache_spec.
  repeat split.
  - by destruct (uc_prompt_tokens u).
  - by destruct (uc_completion_tokens u).
  - done.
Qed.

(** The scenario of the specification: [prompt_tokens = 0] followed by
    [prompt_tokens = 42] yields [42]. *)
Lemma _calculate_usage_per_chunk_override_witness :
  upc_prompt_tokens
    (_calculate_usage_per_chunk
       [usage_chunk_of (tokens_usage (Some 0%Z) None None);
        usage_chunk_of (tokens_usage (Some 42%Z) None None)])
  = 42%Z.
Proof.
  exact (proj1 (_calculate_usage_per_chunk_override
                  [usage_chunk_of (tokens_usage (Some 0%Z) None None)]
                  (usage_chunk_of (tokens_usage (Some 42%Z) None None))
                  (tokens_usage (Some 42%Z) None None) eq_refl)).
Defined.

(** C2 fails as stated for [prompt_tokens_details]: with the running value
    set, a later usage record that carries other details replaces it, and
    a later usage record that carries none resets it; in neither case is
    the running value left unchanged. *)
Lemma _calculate_usage_per_chunk_details_replaced :
  let details := {| ptd_web_search_requests := None; ptd_cached_tokens := Some 7%Z |} in
  let details' := {| ptd_web_search_requests := None; ptd_cached_tokens := Some 9%Z |} in
  let first := usage_chunk_of (tokens_usage (Some 10%Z) None (Some details)) in
  let second := usage_chunk_of (tokens_usage None (Some 5%Z) (Some details')) in
  let bare := usage_chunk_of (tokens_usage None (Some 5%Z) None) in
  upc_prompt_tokens_details (_calculate_usage_per_chunk [first]) = Some details
  ∧ upc_prompt_tokens_details (_calculate_usage_per_chunk [first; second])
    = Some details'
  ∧ upc_prompt_tokens_details (_calculate_usage_per_chunk [first; bare]) = None
  ∧ upc_prompt_tokens_details (_calculate_usage_per_chunk [first; second])
    ≠ upc_prompt_tokens_details (_calculate_usage_per_chunk [first])
  ∧ upc_prompt_tokens_details (_calculate_usage_per_chunk [first; bare])
    ≠ upc_prompt_tokens_details (_calculate_usage_per_chunk [first]).
Proof. repeat split; discriminate. Qed.

(** ** Usage aggregator: the final record *)

Section CalculateUsageFacts.
Context {Messages E : Type}.
Variable token_counter :
  string → option Messages → option string → bool → result E Z.

(** C6. A usage record returned by [calculate_usage] has [total_tokens =
    prompt_tokens + completion_tokens], and [calculate_usage] returns such
    a record unless the completion-token fallback was taken and the
    tokenizer raised there.  The [total_tokens] carried by the chunks plays
    no part: rewriting it in every usage record leaves the result as it
    is. *)
Theorem calculate_usage_total_tokens
    (chunks : list Chunk) (model completion_output : string)
    (messages : option Messages) (reasoning_tokens : option Z) :
  match calculate_usage token_counter chunks model completion_output
                        messages reasoning_tokens with
  | Ok usage => total_tokens usage = (prompt_tokens usage + completion_tokens usage)%Z
  | Raise e =>
      upc_completion_tokens (_calculate_usage_per_chunk chunks) = 0%Z
      ∧ token_counter model None (Some completion_output) true = Raise e
  end
  ∧ ∀ total : UsageChunk → option Z,
      calculate_usage token_counter (with_total_tokens total <$> chunks)
                      model completion_output messages reasoning_tokens
      = calculate_usage token_counter chunks model completion_output
                        messages reasoning_tokens.
Proof.
  split.
  - unfold calculate_usage, resolve_completion_tokens.
    destruct (Z.eqb_spec (upc_completion_tokens (_calculate_usage_per_chunk chunks)) 0)
      as [Hzero|Hpos]; [|done].
    by destruct (token_counter model None (Some completion_output) true).
  - intros total. unfold calculate_usage.
    by rewrite _calculate_usage_per_chunk_total.
Qed.

(** C7. The prompt-token fallback is taken only when the aggregated
    [prompt_tokens] is not positive; a positive aggregate is returned as it
    is.  When the fallback is taken and the tokenizer raises, the failure
    is absorbed: [prompt_tokens] is 0 and the record is assembled from
    whatever the completion side yields.  When the completion-token
    fallback is taken and the tokenizer raises there, the same exception
    leaves [calculate_usage]. *)
Theorem calculate_usage_failure_policy
    (chunks : list Chunk) (model completion_output : string)
    (messages : option Messages) (reasoning_tokens : option Z) :
  let per_chunk := _calculate_usage_per_chunk chunks in
  let returned := calculate_usage token_counter chunks model completion_output
                                  messages reasoning_tokens in
  (∀ usage, (0 < upc_prompt_tokens per_chunk)%Z → returned = Ok usage →
     prompt_tokens usage = upc_prompt_tokens per_chunk)
  ∧ (∀ e completion,
       (upc_prompt_tokens per_chunk ≤ 0)%Z →
       token_counter model messages None false = Raise e →
       resolve_completion_tokens token_counter (upc_completion_tokens per_chunk)
                                 model completion_output = Ok completion →
       ∃ usage, returned = Ok usage
                ∧ prompt_tokens usage = 0%Z
                ∧ completion_tokens usage = completion
                ∧ total_tokens usage = completion)
  ∧ (∀ e,
       (upc_completion_tokens per_chunk ≤ 0)%Z →
       token_counter model None (Some completion_output) true = Raise e →
       returned = Raise e).
Proof.
  intros per_chunk returned.
  destruct (_calculate_usage_per_chunk_nonneg chunks) as [Hp Hc].
  fold per_chunk in Hp, Hc.
  subst returned. unfold calculate_usage. fold per_chunk.
  split; [|split].
  - intros usage Hpos Hret.
    destruct (resolve_completion_tokens _ _ _ _); [|done].
    injection Hret as <-. simpl. unfold resolve_prompt_tokens.
    destruct (Z.eqb_spec (upc_prompt_tokens per_chunk) 0); [lia | done].
  - intros e completion Hzero Hraise ->.
    eexists. split; [done|]. simpl. unfold resolve_prompt_tokens.
    destruct (Z.eqb_spec (upc_prompt_tokens per_chunk) 0); [|lia].
    by rewrite Hraise.
  - intros e Hzero Hraise. unfold resolve_completion_tokens.
    destruct (Z.eqb_spec (upc_completion_tokens per_chunk) 0); [|lia].
    by rewrite Hraise.
Qed.

End CalculateUsageFacts.

Lemma calculate_usage_failure_policy_witness :
  (∃ usage,
     calculate_usage text_only_counter [] "gpt" "Hello" (Some ["hi"]) None = Ok usage
     ∧ prompt_tokens usage = 0%Z
     ∧ completion_tokens usage = 5%Z
     ∧ total_tokens usage = 5%Z)
  ∧ calculate_usage failing_counter [] "gpt" "Hello" (Some ["hi"]) None
    = Raise "tokenizer down".
Proof.
  split.
  - apply (proj1 (proj2 (calculate_usage_failure_policy text_only_counter
             [] "gpt" "Hello" (Some ["hi"]) None)) "no tokenizer for messages");
      [simpl; lia | reflexivity | reflexivity].
  - apply (proj2 (proj2 (calculate_usage_failure_policy failing_counter
             [] "gpt" "Hello" (Some ["hi"]) None)) "tokenizer down");
      [simpl; lia | reflexivity].
Defined.

(** ** Thinking-block merger *)

Lemma thinking_choice_step_blocks (st : ThinkingState) (choice : Choice) :
  thinking_choice_step st choice = fold_left thinking_block_step (choice_blocks choice) st.
Proof.
  unfold thinking_choice_step, choice_blocks.
  by destruct (dl_thinking_blocks _) as [[|b bs]|].
Qed.

Lemma thinking_chunk_step_blocks (st : ThinkingState) (chunk : Chunk) :
  thinking_chunk_step st chunk
  = fold_left thinking_block_step (flat_map choice_blocks (ck_choices chunk)) st.
Proof.
  unfold thinking_chunk_step. revert st.
  induction (ck_choices chunk) as [|c cs IH]; intros st; simpl; [done|].
  by rewrite fold_left_app, IH, thinking_choice_step_blocks.
Qed.

Lemma thinking_scan_blocks (chunks : list Chunk) (st : ThinkingState) :
  fold_left thinking_chunk_step chunks st
  = fold_left thinking_block_step (thinking_blocks_of chunks) st.
Proof.
  unfold thinking_blocks_of. revert st.
  induction chunks as [|c cs IH]; intros st; simpl; [done|].
  by rewrite fold_left_app, IH, thinking_chunk_step_blocks.
Qed.

Lemma thinking_scan_text (blocks : list ThinkingBlock) (st : ThinkingState) :
  combined_thinking_text (fold_left thinking_block_step blocks st)
  = match thinking_fragments blocks with
    | [] => combined_thinking_text st
    | frs => Some (default "" (combined_thinking_text st) +:+ join frs)
    end.
Proof.
  revert st. induction blocks as [|b bs IH]; intros st; [done|].
  simpl. rewrite IH. unfold thinking_fragments at 2. simpl.
  fold (thinking_fragments bs).
  unfold thinking_block_step.
  destruct (is_redacted b); simpl; [done|].
  destruct (tb_thinking b) as [[|a t]|]; simpl; try done.
  destruct (thinking_fragments bs) as [|fr frs].
  - change (join [String a t]) with (String a t). done.
  - by rewrite (join_cons (String a t)), append_assoc'.
Qed.

Lemma thinking_scan_last (blocks : list ThinkingBlock) (b : ThinkingBlock) :
  let st := fold_left thinking_block_step (blocks ++ [b]) thinking_init in
  if is_redacted b
  then th_type st = redacted_thinking ∧ th_data st = tb_data b
  else th_type st = thinking ∧ th_signature st = tb_signature b.
Proof.
  simpl. rewrite fold_left_app. simpl. unfold thinking_block_step.
  by destruct (is_redacted b).
Qed.

Lemma thinking_emit_nonempty (st : ThinkingState) :
  thinking_emit st
  = match th_type st with
    | thinking =>
        text ← nonempty (combined_thinking_text st);
        signature ← nonempty (th_signature st);
        Some [ChatCompletionThinkingBlock text signature]
    | redacted_thinking =>
        data ← nonempty (th_data st);
        Some [ChatCompletionRedactedThinkingBlock data]
    end.
Proof.
  unfold thinking_emit.
  destruct (combined_thinking_text st) as [[|a t]|], (th_type st),
    (th_signature st) as [[|b s]|], (th_data st) as [[|c d]|]; done.
Qed.

(** C5, amended. The outcome is decided by the last [thinking_blocks]
    entry scanned.  If it is of the redacted variant, one
    [redacted_thinking] block with the data of that entry is emitted,
    provided the data is non-empty.  If it is of the thinking variant, one
    [thinking] block is emitted whose text is the in-order concatenation of
    all thinking fragments and whose signature is the signature of that
    last entry, provided both are non-empty.  In every other case, and
    when there is no entry at all, the result is absent. *)
Theorem get_combined_thinking_content_last (chunks : list Chunk) :
  get_combined_thinking_content chunks
  = match last (thinking_blocks_of chunks) with
    | None => None
    | Some b =>
        if is_redacted b then
          data ← nonempty (tb_data b);
          Some [ChatCompletionRedactedThinkingBlock data]
        else
          text ← nonempty (Some (join (thinking_fragments (thinking_blocks_of chunks))));
          signature ← nonempty (tb_signature b);
          Some [ChatCompletionThinkingBlock text signature]
    end.
Proof.
  unfold get_combined_thinking_content.
  rewrite thinking_scan_blocks, thinking_emit_nonempty.
  destruct (thinking_blocks_of chunks) as [|b bs _] using rev_ind; [done|].
  rewrite last_snoc.
  pose proof (thinking_scan_last bs b) as Hlast. simpl in Hlast.
  rewrite thinking_scan_text.
  destruct (is_redacted b); destruct Hlast as [-> ->]; [done|].
  destruct (thinking_fragments (bs ++ [b])) as [|fr frs]; done.
Qed.

(** C5 fails as stated: a signature seen on an earlier entry does not
    survive a later thinking entry that has none, so nothing is emitted
    although thinking text and a non-null signature were both observed. *)
Lemma get_combined_thinking_content_signature_lost :
  let blocks := [thinking_block (Some "a") (Some "sig");
                 thinking_block (Some "b") None] in
  thinking_as_stated blocks = Some [ChatCompletionThinkingBlock "ab" "sig"]
  ∧ get_combined_thinking_content [thinking_chunk blocks] = None
  ∧ get_combined_thinking_content [thinking_chunk blocks] ≠ thinking_as_stated blocks.
Proof. repeat split; discriminate. Qed.

(** ** Tool-call merger *)

Lemma omap_cons {A B} (f : A → option B) (x : A) (l : list A) :
  omap f (x :: l) = match f x with Some y => y :: omap f l | None => omap f l end.
Proof. reflexivity. Qed.

Lemma nonempty_ne (o : option string) (s : string) : nonempty o = Some s → s ≠ "".
Proof. destruct o as [[|a t]|]; simpl; [done| |done]. by intros [= <-]. Qed.

Lemma omap_nonempty {A} (f : A → option string) (l : list A) :
  (∀ x s, f x = Some s → s ≠ "") → Forall (λ s, s ≠ "") (omap f l).
Proof.
  intros Hf. induction l as [|x l IH]; simpl; [constructor|].
  destruct (f x) eqn:Hx; [constructor; eauto | done].
Qed.

Lemma update_acc_fields (tool_call : ToolCallDelta) (acc : ToolCallAcc) :
  acc_id (update_acc tool_call acc) = or_else (id_of tool_call) (acc_id acc)
  ∧ acc_name (update_acc tool_call acc) = or_else (name_of tool_call) (acc_name acc)
  ∧ acc_type (update_acc tool_call acc) = or_else (type_of tool_call) (acc_type acc)
  ∧ acc_arguments (update_acc tool_call acc)
    = acc_arguments acc ++ omap arguments_of [tool_call].
Proof.
  unfold update_acc, id_of, name_of, type_of, arguments_of, function_of. simpl.
  repeat split.
  - by destruct (tc_id tool_call) as [[|a i]|].
  - destruct (tc_function tool_call) as [| |f]; try done. simpl.
    by destruct (fn_name f) as [[|a n]|].
  - by destruct (tc_type tool_call) as [[|a t]|].
  - destruct (tc_function tool_call) as [| |f]; simpl; rewrite ?app_nil_r; try done.
    destruct (fn_arguments f) as [[|a g]|]; simpl; by rewrite ?app_nil_r.
Qed.

Lemma or_else_last_snoc {A B} (f : B → option A) (l : list B) (x : B) (a0 : option A) :
  or_else (f x) (or_else (last (omap f l)) a0) = or_else (last (omap f (l ++ [x]))) a0.
Proof.
  rewrite omap_app. simpl. destruct (f x) as [y|]; simpl.
  - by rewrite last_snoc.
  - by rewrite app_nil_r.
Qed.

Lemma acc_of_fields (tool_calls : list ToolCallDelta) (acc : ToolCallAcc) :
  acc_id (acc_of tool_calls acc) = or_else (last (omap id_of tool_calls)) (acc_id acc)
  ∧ acc_name (acc_of tool_calls acc)
    = or_else (last (omap name_of tool_calls)) (acc_name acc)
  ∧ acc_type (acc_of tool_calls acc)
    = or_else (last (omap type_of tool_calls)) (acc_type acc)
  ∧ acc_arguments (acc_of tool_calls acc)
    = acc_arguments acc ++ omap arguments_of tool_calls.
Proof.
  induction tool_calls as [|tc tcs (IHi & IHn & IHt & IHa)] using rev_ind.
  - simpl. by rewrite app_nil_r.
  - unfold acc_of in *. rewrite fold_left_app. cbn [fold_left].
    destruct (update_acc_fields tc (fold_left (λ acc tool_call, update_acc tool_call acc)
                                              tcs acc)) as (-> & -> & -> & ->).
    rewrite IHi, IHn, IHt, IHa, !or_else_last_snoc.
    repeat split. by rewrite (omap_app arguments_of tcs [tc]), app_assoc.
Qed.

Lemma tool_call_step_lookup (m : gmap Z ToolCallAcc) (entry : option ToolCallDelta) (i : Z) :
  tool_call_step m entry !! i
  = match scanned entry with
    | Some tool_call =>
        if decide (index_of tool_call = i)
        then Some (update_acc tool_call (default empty_acc (m !! i)))
        else m !! i
    | None => m !! i
    end.
Proof.
  unfold tool_call_step. destruct (scanned entry) as [tc|]; [|done].
  destruct (decide (index_of tc = i)) as [<-|Hne].
  - rewrite lookup_alter_eq.
    destruct (m !! index_of tc) as [acc|] eqn:Hm.
    + by rewrite Hm.
    + by rewrite lookup_insert_eq.
  - rewrite lookup_alter_ne by done.
    destruct (m !! index_of tc); [done|]. by rewrite lookup_insert_ne.
Qed.

Lemma tool_call_fold_lookup (entries : list (option ToolCallDelta))
    (m : gmap Z ToolCallAcc) (i : Z) :
  fold_left tool_call_step entries m !! i
  = match at_index i (omap scanned entries) with
    | [] => m !! i
    | tool_calls => Some (acc_of tool_calls (default empty_acc (m !! i)))
    end.
Proof.
  revert m. induction entries as [|e es IH]; intros m; [done|].
  cbn [fold_left]. rewrite IH, tool_call_step_lookup, omap_cons.
  destruct (scanned e) as [tc|]; [|done].
  unfold at_index. rewrite filter_cons.
  destruct (decide (index_of tc = i)) as [Heq|Hne]; [|done].
  by destruct (filter _ (omap scanned es)).
Qed.

Lemma tool_choices_fold (choices : list Choice) (m : gmap Z ToolCallAcc) :
  fold_left tool_choice_step choices m
  = fold_left tool_call_step (flat_map choice_entries choices) m.
Proof.
  revert m. induction choices as [|c cs IH]; intros m; simpl; [done|].
  by rewrite fold_left_app, IH.
Qed.

Lemma build_tool_call_map_entries (chunks : list Chunk) :
  build_tool_call_map chunks = fold_left tool_call_step (tool_call_entries chunks) ∅.
Proof.
  unfold build_tool_call_map, tool_call_entries. generalize (∅ : gmap Z ToolCallAcc).
  induction chunks as [|c cs IH]; intros m; simpl; [done|].
  rewrite fold_left_app, IH. unfold tool_chunk_step. by rewrite tool_choices_fold.
Qed.

(** The accumulator of index [i] exists exactly when some scanned entry
    has that index, and it is the fold of those entries. *)
Lemma build_tool_call_map_lookup (chunks : list Chunk) (i : Z) :
  build_tool_call_map chunks !! i
  = match at_index i (scanned_entries chunks) with
    | [] => None
    | tool_calls => Some (acc_of tool_calls empty_acc)
    end.
Proof.
  rewrite build_tool_call_map_entries, tool_call_fold_lookup.
  unfold scanned_entries. by rewrite lookup_empty.
Qed.

Lemma emit_fold (m : gmap Z ToolCallAcc) (indices : list Z)
    (tool_calls_list : list ChatCompletionMessageToolCall) :
  fold_left (emit_step m) indices tool_calls_list
  = tool_calls_list ++ omap (λ i, m !! i ≫= emit_tool_call) indices.
Proof.
  revert tool_calls_list.
  induction indices as [|i indices IH]; intros acc; cbn [fold_left].
  - by rewrite app_nil_r.
  - rewrite IH, omap_cons. unfold emit_step.
    destruct (m !! i ≫= emit_tool_call); [|done].
    by rewrite <- app_assoc.
Qed.

Lemma omap_map_filter {A B} (f : A → option B) (g : A → B) (P : A → Prop)
    `{∀ x, Decision (P x)} (l : list A) :
  (∀ x, f x = if decide (P x) then Some (g x) else None) →
  omap f l = map g (filter P l).
Proof.
  intros Hf. induction l as [|x l IH]; [done|].
  rewrite omap_cons, filter_cons, Hf, IH. by destruct (decide (P x)).
Qed.

Lemma StronglySorted_filter {A} (R : A → A → Prop) (P : A → Prop)
    `{∀ x, Decision (P x)} (l : list A) :
  StronglySorted R l → StronglySorted R (filter P l).
Proof.
  induction 1 as [|x l Hl IH Hx]; [constructor|].
  rewrite filter_cons. destruct (decide (P x)); [|done].
  constructor; [done|].
  apply Forall_forall. intros y [_ Hy]%list_elem_of_filter.
  rewrite Forall_forall in Hx. by apply Hx.
Qed.

Lemma StronglySorted_le_lt (l : list Z) :
  StronglySorted Z.le l → NoDup l → StronglySorted Z.lt l.
Proof.
  induction 1 as [|x l Hl IH Hx]; intros Hnd; [constructor|].
  apply NoDup_cons in Hnd as [Hnotin Hnd].
  constructor; [by apply IH|].
  apply Forall_forall. intros y Hy.
  rewrite Forall_forall in Hx. specialize (Hx y Hy).
  assert (x ≠ y) by (intros ->; done). lia.
Qed.

Lemma sorted_keys_perm (m : gmap Z ToolCallAcc) : sorted_keys m ≡ₚ (map_to_list m).*1.
Proof. apply py_sorted_perm. Qed.

Lemma sorted_keys_elem_of (m : gmap Z ToolCallAcc) (i : Z) :
  i ∈ sorted_keys m ↔ is_Some (m !! i).
Proof.
  rewrite sorted_keys_perm, list_elem_of_fmap. split.
  - intros [[j acc] [-> Hin]]. apply elem_of_map_to_list in Hin. by eexists.
  - intros [acc Hacc]. exists (i, acc). split; [done|]. by apply elem_of_map_to_list.
Qed.

Lemma sorted_keys_ascending (m : gmap Z ToolCallAcc) :
  StronglySorted Z.lt (sorted_keys m).
Proof.
  apply StronglySorted_le_lt.
  - eapply (StronglySorted_mono (key_le (λ i : Z, i) Z.ltb)).
    + intros x y. unfold key_le. by rewrite Z.ltb_ge.
    + apply py_sorted_sorted.
      * intros a b. rewrite Z.ltb_lt, Z.ltb_ge. lia.
      * intros a b c. rewrite !Z.ltb_ge. lia.
  - rewrite sorted_keys_perm. apply NoDup_fst_map_to_list.
Qed.

Lemma last_omap_nonempty {A} (f : A → option string) (l : list A) (s : string) :
  (∀ x s, f x = Some s → s ≠ "") → last (omap f l) = Some s → s ≠ "".
Proof.
  intros Hf Hlast. apply last_Some in Hlast as [l' Hl'].
  pose proof (omap_nonempty f l Hf) as Hall.
  rewrite Hl' in Hall. apply Forall_app in Hall as [_ Hs].
  by apply Forall_cons in Hs as [Hs _].
Qed.

Lemma arguments_of_ne (tool_call : ToolCallDelta) (s : string) :
  arguments_of tool_call = Some s → s ≠ "".
Proof.
  unfold arguments_of. destruct (function_of tool_call); simpl; [|done].
  apply nonempty_ne.
Qed.

Lemma name_of_ne (tool_call : ToolCallDelta) (s : string) :
  name_of tool_call = Some s → s ≠ "".
Proof.
  unfold name_of. destruct (function_of tool_call); simpl; [|done].
  apply nonempty_ne.
Qed.

Lemma str_or_nonempty (s d : string) : s ≠ "" → str_or s d = s.
Proof. by destruct s. Qed.

Lemma emit_tool_call_acc_of (tool_calls : list ToolCallDelta) :
  emit_tool_call (acc_of tool_calls empty_acc)
  = if decide (omap id_of tool_calls ≠ [] ∧ omap name_of tool_calls ≠ [])
    then Some (merged_of tool_calls) else None.
Proof.
  unfold emit_tool_call, merged_of.
  destruct (acc_of_fields tool_calls empty_acc) as (-> & -> & -> & ->). simpl.
  destruct (last (omap id_of tool_calls)) as [i|] eqn:Hi; simpl.
  2:{ apply last_None in Hi. rewrite decide_False; [done | by intros [? _]]. }
  destruct (last (omap name_of tool_calls)) as [n|] eqn:Hn; simpl.
  2:{ apply last_None in Hn. rewrite decide_False; [by destruct i | by intros [_ ?]]. }
  pose proof (last_omap_nonempty id_of _ _ (λ x, nonempty_ne (tc_id x)) Hi) as Hi'.
  pose proof (last_omap_nonempty name_of _ _ name_of_ne Hn) as Hn'.
  rewrite decide_True.
  2:{ split; intros Hnil; [rewrite Hnil in Hi | rewrite Hnil in Hn]; done. }
  destruct i as [|a i]; [done|]. destruct n as [|b n]; [done|].
  do 2 f_equal.
  - f_equal.
    pose proof (omap_nonempty arguments_of tool_calls arguments_of_ne)
      as Hargs.
    destruct (omap arguments_of tool_calls) as [|fr frs] eqn:Hfr; [done|].
    apply str_or_nonempty, join_nonempty; done.
  - destruct (last (omap type_of tool_calls)) as [t|] eqn:Ht; [|done]. simpl.
    apply str_or_nonempty.
    exact (last_omap_nonempty type_of _ _ (λ x, nonempty_ne (tc_type x)) Ht).
Qed.

(** C1, amended. The merger emits exactly one tool call for every index at
    which a non-empty [id] and a non-empty function [name] were observed on
    entries it scans, that is on entries that are not falsy and have a
    [function] attribute, and none for any other index.  The calls come in
    strictly ascending index order.  The call of an index carries the last
    [id] and [name] observed there, the in-order concatenation of the
    non-empty argument fragments observed there, or the string of an empty
    JSON object when there was none, and the last [type] observed there,
    or ["function"] when there was none. *)
Theorem get_combined_tool_content_spec (chunks : list Chunk) :
  ∃ indices : list Z,
    StronglySorted Z.lt indices
    ∧ (∀ i, i ∈ indices
            ↔ observed id_of chunks i ≠ [] ∧ observed name_of chunks i ≠ [])
    ∧ get_combined_tool_content chunks = map (merged_call chunks) indices.
Proof.
  set (m := build_tool_call_map chunks).
  set (P := λ i, observed id_of chunks i ≠ [] ∧ observed name_of chunks i ≠ []).
  assert (Hemit : ∀ i, m !! i ≫= emit_tool_call
                       = if decide (P i) then Some (merged_call chunks i) else None).
  { intros i. subst m P. rewrite build_tool_call_map_lookup.
    change (merged_call chunks i)
      with (merged_of (at_index i (scanned_entries chunks))).
    unfold observed.
    destruct (at_index i (scanned_entries chunks)) as [|tc tcs].
    - rewrite decide_False; [done | by intros [? _]].
    - exact (emit_tool_call_acc_of (tc :: tcs)). }
  exists (filter P (sorted_keys m)). split; [|split].
  - apply StronglySorted_filter, sorted_keys_ascending.
  - intros i. rewrite list_elem_of_filter. split; [by intros [? _]|].
    intros HP. split; [done|].
    apply sorted_keys_elem_of.
    specialize (Hemit i). rewrite decide_True in Hemit by done.
    destruct (m !! i); [by eexists | done].
  - unfold get_combined_tool_content. fold m. rewrite emit_fold. simpl.
    by apply omap_map_filter.
Qed.

(** *** Ignored entries *)

Lemma ignored_scanned (entry : option ToolCallDelta) :
  ignored entry = true ↔ scanned entry = None.
Proof.
  unfold ignored, scanned. destruct entry as [tc|]; [|done].
  by destruct (tc_function tc).
Qed.

Lemma tool_call_step_ignored (m : gmap Z ToolCallAcc) (entry : option ToolCallDelta) :
  ignored entry = true → tool_call_step m entry = m.
Proof. intros H%ignored_scanned. unfold tool_call_step. by rewrite H. Qed.

Lemma tool_call_fold_drop (entries : list (option ToolCallDelta)) (m : gmap Z ToolCallAcc) :
  fold_left tool_call_step (filter (λ e, ignored e = false) entries) m
  = fold_left tool_call_step entries m.
Proof.
  revert m. induction entries as [|e es IH]; intros m; [done|].
  rewrite filter_cons. destruct (decide (ignored e = false)) as [|Hign]; simpl.
  - apply IH.
  - rewrite tool_call_step_ignored; [apply IH | by destruct (ignored e)].
Qed.

Lemma choice_entries_drop (choice : Choice) :
  choice_entries (drop_ignored_choice choice)
  = filter (λ e, ignored e = false) (choice_entries choice).
Proof.
  unfold choice_entries, choice_delta, drop_ignored_choice. simpl.
  by destruct (ch_delta choice).
Qed.

Lemma tool_call_entries_drop (chunks : list Chunk) :
  tool_call_entries (drop_ignored <$> chunks)
  = filter (λ e, ignored e = false) (tool_call_entries chunks).
Proof.
  unfold tool_call_entries.
  induction chunks as [|c cs IH]; [done|].
  rewrite fmap_cons. cbn [flat_map]. rewrite filter_app, IH. f_equal.
  simpl. induction (ck_choices c) as [|ch chs IHc]; [done|].
  rewrite fmap_cons. cbn [flat_map]. by rewrite filter_app, IHc, choice_entries_drop.
Qed.

(** C10. An entry of [tool_calls] that is falsy or lacks a [function]
    attribute leaves the accumulator map as it was, whatever index, id or
    type it carries; hence removing all such entries from the chunk set
    changes neither the accumulator map nor the emitted tool calls. *)
Theorem get_combined_tool_content_ignores (chunks : list Chunk) :
  (∀ m entry, ignored entry = true → tool_call_step m entry = m)
  ∧ build_tool_call_map (drop_ignored <$> chunks) = build_tool_call_map chunks
  ∧ get_combined_tool_content (drop_ignored <$> chunks)
    = get_combined_tool_content chunks.
Proof.
  assert (Hmap : build_tool_call_map (drop_ignored <$> chunks)
                 = build_tool_call_map chunks).
  { by rewrite !build_tool_call_map_entries, tool_call_entries_drop,
      tool_call_fold_drop. }
  split; [apply tool_call_step_ignored|]. split; [done|].
  unfold get_combined_tool_content. by rewrite Hmap.
Qed.

(** C1 fails as stated: an id is carried at index 0 by an entry without
    [function] attribute and a name is carried at index 0 by a later entry,
    so both were observed across the chunk set; yet nothing is emitted,
    because the first entry is skipped by the guard of line 130. *)
Lemma get_combined_tool_content_id_on_skipped_entry :
  let chunks :=
    [tool_chunk [Some {| tc_index := Some 0%Z; tc_id := Some "call_1";
                         tc_type := Some "function"; tc_function := Absent |}];
     tool_chunk [Some {| tc_index := Some 0%Z; tc_id := None; tc_type := None;
                         tc_function :=
                           Present {| fn_name := Some "get_weather";
                                      fn_arguments := Some "{}" |} |}]] in
  carried id_of chunks 0 = ["call_1"]
  ∧ carried name_of chunks 0 = ["get_weather"]
  ∧ get_combined_tool_content chunks = [].
Proof. by vm_compute. Qed.

(** Two fragments of one call are merged; an index without id is skipped;
    the output is in ascending index order. *)
Example get_combined_tool_content_merges :
  get_combined_tool_content
    [tool_chunk [Some {| tc_index := Some 2%Z; tc_id := Some "call_2"; tc_type := None;
                         tc_function :=
                           Present {| fn_name := Some "now"; fn_arguments := None |} |};
                 Some {| tc_index := Some 0%Z; tc_id := Some "call_1";
                         tc_type := Some "function";
                         tc_function :=
                           Present {| fn_name := Some "get_weather";
                                      fn_arguments := Some "{loc" |} |}];
     tool_chunk [Some {| tc_index := Some 1%Z; tc_id := None; tc_type := None;
                         tc_function :=
                           Present {| fn_name := Some "lost"; fn_arguments := None |} |};
                 Some {| tc_index := None; tc_id := None; tc_type := None;
                         tc_function :=
                           Present {| fn_name := None;
                                      fn_arguments := Some ":NYC}" |} |}]]
  = [{| tcall_id := "call_1";
        tcall_function := {| f_arguments := "{loc:NYC}"; f_name := "get_weather" |};
        tcall_type := "function" |};
     {| tcall_id := "call_2";
        tcall_function := {| f_arguments := "{}"; f_name := "now" |};
        tcall_type := "function" |}].
Proof. by vm_compute. Qed.

(** ** Audio merger: base64 concatenation *)

Lemma below_forallb (n : nat) (f : N → bool) :
  forallb f (below n) = true → ∀ v, (v < N.of_nat n)%N → f v = true.
Proof.
  intros Hall v Hv. rewrite forallb_forall in Hall. apply Hall.
  unfold below. apply in_map_iff. exists (N.to_nat v). split; [lia|].
  apply in_seq. lia.
Qed.

Lemma below_forallb2 (n : nat) (f : N → N → bool) :
  forallb (λ a, forallb (f a) (below n)) (below n) = true →
  ∀ a b, (a < N.of_nat n)%N → (b < N.of_nat n)%N → f a b = true.
Proof.
  intros Hall a b Ha Hb.
  apply (below_forallb n (f a)); [|done].
  by apply (below_forallb n (λ a, forallb (f a) (below n))).
Qed.

(** The two tables are inverse on sextets, and no alphabet character is
    the padding character or lies outside ASCII. *)
Lemma a2b_b2a (v : N) :
  (v < 64)%N →
  a2b (b2a v) = Some v ∧ Ascii.eqb (b2a v) BASE64_PAD = false ∧ is_ascii (b2a v) = true.
Proof.
  intros Hv.
  pose proof (below_forallb 64
    (λ v, bool_decide (a2b (b2a v) = Some v)
          && negb (Ascii.eqb (b2a v) BASE64_PAD) && is_ascii (b2a v))) as H.
  specialize (H ltac:(by vm_compute) v Hv).
  apply andb_prop in H as [H Ha]. apply andb_prop in H as [Hd Hp].
  apply bool_decide_eq_true in Hd. apply negb_true_iff in Hp. done.
Qed.

Lemma sextets_bounded (b1 b2 : N) :
  is_byte b1 → is_byte b2 →
  (sextet1 b1 < 64)%N ∧ (sextet2 b1 b2 < 64)%N ∧ (sextet3 b1 b2 < 64)%N
  ∧ (sextet4 b1 < 64)%N.
Proof.
  intros H1 H2.
  pose proof (below_forallb2 256
    (λ b1 b2, (sextet1 b1 <? 64)%N && (sextet2 b1 b2 <? 64)%N
              && (sextet3 b1 b2 <? 64)%N && (sextet4 b1 <? 64)%N)) as H.
  specialize (H ltac:(by vm_compute) b1 b2 H1 H2).
  repeat (apply andb_prop in H as [H ?]).
  repeat split; by apply N.ltb_lt.
Qed.

(** What the decoder rebuilds from the sextets of a group. *)
Lemma decode_first (b1 b2 : N) :
  is_byte b1 → is_byte b2 →
  to_byte (N.lor (N.shiftl (sextet1 b1) 2) (N.shiftr (sextet2 b1 b2) 4)) = b1
  ∧ N.land (sextet2 b1 b2) 15 = N.shiftr b2 4.
Proof.
  intros H1 H2.
  pose proof (below_forallb2 256
    (λ b1 b2,
       (to_byte (N.lor (N.shiftl (sextet1 b1) 2) (N.shiftr (sextet2 b1 b2) 4)) =? b1)%N
       && (N.land (sextet2 b1 b2) 15 =? N.shiftr b2 4)%N)) as H.
  specialize (H ltac:(by vm_compute) b1 b2 H1 H2).
  apply andb_prop in H as [Ha Hb]. by apply N.eqb_eq in Ha, Hb.
Qed.

Lemma decode_second (b2 b3 : N) :
  is_byte b2 → is_byte b3 →
  to_byte (N.lor (N.shiftl (N.shiftr b2 4) 4) (N.shiftr (sextet3 b2 b3) 2)) = b2
  ∧ N.land (sextet3 b2 b3) 3 = N.shiftr b3 6.
Proof.
  intros H2 H3.
  pose proof (below_forallb2 256
    (λ b2 b3,
       (to_byte (N.lor (N.shiftl (N.shiftr b2 4) 4) (N.shiftr (sextet3 b2 b3) 2)) =? b2)%N
       && (N.land (sextet3 b2 b3) 3 =? N.shiftr b3 6)%N)) as H.
  specialize (H ltac:(by vm_compute) b2 b3 H2 H3).
  apply andb_prop in H as [Ha Hb]. by apply N.eqb_eq in Ha, Hb.
Qed.

Lemma decode_third (b3 : N) :
  is_byte b3 → to_byte (N.lor (N.shiftl (N.shiftr b3 6) 6) (sextet4 b3)) = b3.
Proof.
  intros H3.
  pose proof (below_forallb 256
    (λ b3, (to_byte (N.lor (N.shiftl (N.shiftr b3 6) 6) (sextet4 b3)) =? b3)%N)) as H.
  specialize (H ltac:(by vm_compute) b3 H3). by apply N.eqb_eq in H.
Qed.

Lemma list_ind3 {A} (P : list A → Prop) :
  P [] → (∀ a, P [a]) → (∀ a b, P [a; b]) →
  (∀ a b c l, P l → P (a :: b :: c :: l)) →
  ∀ l, P l.
Proof.
  intros H0 H1 H2 H3 l.
  assert (Hall : P l ∧ (∀ a, P (a :: l)) ∧ (∀ a b, P (a :: b :: l))).
  { induction l as [|x l (IH0 & IH1 & IH2)]; [done|]. auto. }
  apply Hall.
Qed.

Lemma b2a_base64_group (b1 b2 b3 : N) (rest : list N) :
  b2a_base64 (b1 :: b2 :: b3 :: rest)
  = b2a (sextet1 b1) :: b2a (sextet2 b1 b2) :: b2a (sextet3 b2 b3)
    :: b2a (sextet4 b3) :: b2a_base64 rest.
Proof. reflexivity. Qed.

Lemma b2a_base64_one (b1 : N) :
  b2a_base64 [b1] = [b2a (sextet1 b1); b2a (sextet2 b1 0); BASE64_PAD; BASE64_PAD].
Proof. unfold sextet2. by rewrite N.shiftr_0_l, N.lor_0_r. Qed.

Lemma b2a_base64_two (b1 b2 : N) :
  b2a_base64 [b1; b2]
  = [b2a (sextet1 b1); b2a (sextet2 b1 b2); b2a (sextet3 b2 0); BASE64_PAD].
Proof. unfold sextet3. by rewrite N.shiftr_0_l, N.lor_0_r. Qed.

(** One step of the decoder on an alphabet character. *)
Lemma a2b_base64_loop_sextet (v : N) (rest : list ascii) (quad_pos : nat)
    (leftchar : N) (pads : nat) :
  (v < 64)%N →
  a2b_base64_loop (b2a v :: rest) quad_pos leftchar pads
  = match quad_pos with
    | 0%nat => a2b_base64_loop rest 1 v 0
    | 1%nat =>
        cons (to_byte (N.lor (N.shiftl leftchar 2) (N.shiftr v 4)))
          <$> a2b_base64_loop rest 2 (N.land v 15) 0
    | 2%nat =>
        cons (to_byte (N.lor (N.shiftl leftchar 4) (N.shiftr v 2)))
          <$> a2b_base64_loop rest 3 (N.land v 3) 0
    | _ =>
        cons (to_byte (N.lor (N.shiftl leftchar 6) v))
          <$> a2b_base64_loop rest 0 0 0
    end.
Proof.
  intros Hv. destruct (a2b_b2a v Hv) as (Ha & Hp & _).
  cbn [a2b_base64_loop]. by rewrite Hp, Ha.
Qed.

Lemma is_byte_0 : is_byte 0.
Proof. unfold is_byte. lia. Qed.

(** Decoding an encoding gives the bytes back, from any state of the
    decoder that stands at a group boundary. *)
Lemma a2b_b2a_base64 (bin_data : list N) :
  Forall is_byte bin_data →
  ∀ leftchar pads, a2b_base64_loop (b2a_base64 bin_data) 0 leftchar pads = Some bin_data.
Proof.
  induction bin_data as [|b1|b1 b2|b1 b2 b3 rest IH] using list_ind3;
    intros Hbytes leftchar pads.
  - done.
  - apply Forall_cons in Hbytes as [H1 _].
    destruct (sextets_bounded b1 0 H1 is_byte_0) as (Hs1 & Hs2 & _).
    destruct (decode_first b1 0 H1 is_byte_0) as [Hd1 _].
    rewrite b2a_base64_one.
    rewrite (a2b_base64_loop_sextet _ _ 0), (a2b_base64_loop_sextet _ _ 1) by done.
    by rewrite Hd1.
  - apply Forall_cons in Hbytes as [H1 Hbytes]. apply Forall_cons in Hbytes as [H2 _].
    destruct (sextets_bounded b1 b2 H1 H2) as (Hs1 & Hs2 & _).
    destruct (sextets_bounded b2 0 H2 is_byte_0) as (_ & _ & Hs3 & _).
    destruct (decode_first b1 b2 H1 H2) as [Hd1 Hl1].
    destruct (decode_second b2 0 H2 is_byte_0) as [Hd2 _].
    rewrite b2a_base64_two.
    rewrite (a2b_base64_loop_sextet _ _ 0), (a2b_base64_loop_sextet _ _ 1),
      (a2b_base64_loop_sextet _ _ 2) by done.
    by rewrite Hd1, Hl1, Hd2.
  - apply Forall_cons in Hbytes as [H1 Hbytes]. apply Forall_cons in Hbytes as [H2 Hbytes].
    apply Forall_cons in Hbytes as [H3 Hbytes].
    destruct (sextets_bounded b1 b2 H1 H2) as (Hs1 & Hs2 & _).
    destruct (sextets_bounded b2 b3 H2 H3) as (_ & _ & Hs3 & _).
    destruct (sextets_bounded b3 b3 H3 H3) as (_ & _ & _ & Hs4).
    destruct (decode_first b1 b2 H1 H2) as [Hd1 Hl1].
    destruct (decode_second b2 b3 H2 H3) as [Hd2 Hl2].
    rewrite b2a_base64_group.
    rewrite (a2b_base64_loop_sextet _ _ 0), (a2b_base64_loop_sextet _ _ 1),
      (a2b_base64_loop_sextet _ _ 2), (a2b_base64_loop_sextet _ _ 3) by done.
    rewrite Hd1, Hl1, Hd2, Hl2, (decode_third b3 H3), (IH Hbytes). done.
Qed.

Lemma b2a_base64_is_ascii (bin_data : list N) :
  Forall is_byte bin_data → forallb is_ascii (b2a_base64 bin_data) = true.
Proof.
  induction bin_data as [|b1|b1 b2|b1 b2 b3 rest IH] using list_ind3; intros Hbytes.
  - done.
  - apply Forall_cons in Hbytes as [H1 _].
    destruct (sextets_bounded b1 0 H1 is_byte_0) as (Hs1 & Hs2 & _).
    rewrite b2a_base64_one. cbn [forallb].
    destruct (a2b_b2a _ Hs1) as (_ & _ & ->), (a2b_b2a _ Hs2) as (_ & _ & ->). done.
  - apply Forall_cons in Hbytes as [H1 Hbytes]. apply Forall_cons in Hbytes as [H2 _].
    destruct (sextets_bounded b1 b2 H1 H2) as (Hs1 & Hs2 & _).
    destruct (sextets_bounded b2 0 H2 is_byte_0) as (_ & _ & Hs3 & _).
    rewrite b2a_base64_two. cbn [forallb].
    destruct (a2b_b2a _ Hs1) as (_ & _ & ->), (a2b_b2a _ Hs2) as (_ & _ & ->),
      (a2b_b2a _ Hs3) as (_ & _ & ->). done.
  - apply Forall_cons in Hbytes as [H1 Hbytes]. apply Forall_cons in Hbytes as [H2 Hbytes].
    apply Forall_cons in Hbytes as [H3 Hbytes].
    destruct (sextets_bounded b1 b2 H1 H2) as (Hs1 & Hs2 & _).
    destruct (sextets_bounded b2 b3 H2 H3) as (_ & _ & Hs3 & _).
    destruct (sextets_bounded b3 b3 H3 H3) as (_ & _ & _ & Hs4).
    rewrite b2a_base64_group. cbn [forallb].
    destruct (a2b_b2a _ Hs1) as (_ & _ & ->), (a2b_b2a _ Hs2) as (_ & _ & ->),
      (a2b_b2a _ Hs3) as (_ & _ & ->), (a2b_b2a _ Hs4) as (_ & _ & ->).
    by rewrite (IH Hbytes).
Qed.

(** [b64decode] inverts [b64encode] on byte strings. *)
Lemma b64decode_b64encode (bin_data : list N) :
  Forall is_byte bin_data → b64decode (b64encode bin_data) = Some bin_data.
Proof.
  intros Hbytes. unfold b64decode, b64encode.
  rewrite list_ascii_of_string_of_list_ascii, b2a_base64_is_ascii by done.
  by apply a2b_b2a_base64.
Qed.

Lemma to_byte_is_byte (x : N) : is_byte (to_byte x).
Proof.
  unfold is_byte, to_byte. change 255%N with (N.ones 8).
  rewrite N.land_ones. apply N.mod_lt. done.
Qed.

(** The decoder only ever writes bytes. *)
Lemma a2b_base64_loop_bytes (ascii_data : list ascii) :
  ∀ quad_pos leftchar pads bin_data,
    a2b_base64_loop ascii_data quad_pos leftchar pads = Some bin_data →
    Forall is_byte bin_data.
Proof.
  induction ascii_data as [|c rest IH]; intros quad_pos leftchar pads bin_data;
    cbn [a2b_base64_loop].
  - case_decide; [by intros [= <-] | done].
  - destruct (Ascii.eqb c BASE64_PAD).
    { repeat case_decide; eauto. by intros [= <-]. }
    destruct (a2b c) as [v|]; [|by eauto].
    destruct quad_pos as [|[|[|quad_pos]]]; [by eauto|..];
      intros Hsome; apply fmap_Some in Hsome as (tl & Htl & ->);
      (constructor; [apply to_byte_is_byte | by eauto]).
Qed.

Lemma b64decode_bytes (b64_str : string) (bin_data : list N) :
  b64decode b64_str = Some bin_data → Forall is_byte bin_data.
Proof.
  unfold b64decode. case_match; [|done]. apply a2b_base64_loop_bytes.
Qed.

(** C8. When every fragment is valid base64 (each one decodes),
    [concatenate_base64_list] succeeds, and decoding the string it returns
    gives the concatenation of the decoded fragments, whatever the lengths
    of the fragments; on the empty list it returns the empty string. *)
Theorem concatenate_base64_list_decodes :
  (∀ (base64_strings : list string) (decoded : list (list N)),
     Forall2 (λ b64_str bytes, b64decode b64_str = Some bytes) base64_strings decoded →
     ∃ merged,
       concatenate_base64_list base64_strings = Some merged
       ∧ b64decode merged = Some (concat decoded))
  ∧ concatenate_base64_list [] = Some "".
Proof.
  split; [|done].
  intros base64_strings decoded Hvalid.
  exists (b64encode (concat decoded)). split.
  - unfold concatenate_base64_list.
    apply mapM_Some in Hvalid. by rewrite Hvalid.
  - apply b64decode_b64encode. apply Forall_concat.
    induction Hvalid as [|s bytes ss bs Hs _ IH]; constructor; [|done].
    by eapply b64decode_bytes.
Qed.

(** Two fragments of one and two bytes, neither a multiple of the
    three-byte block: the merged string decodes to the three bytes. *)
Lemma concatenate_base64_list_decodes_witness :
  ∃ merged,
    concatenate_base64_list ["QQ=="; "QkM="] = Some merged
    ∧ b64decode merged = Some (concat [[65%N]; [66%N; 67%N]]).
Proof.
  apply (proj1 concatenate_base64_list_decodes).
  repeat constructor.
Defined.

(** Joining the encoded fragments as text instead loses data: decoding
    stops at the padding of the first fragment. *)
Example b64decode_of_joined_text :
  b64decode ("QQ==" +:+ "QkM=") = Some [65%N]
  ∧ concatenate_base64_list ["QQ=="; "QkM="] = Some "QUJD".
Proof. by vm_compute. Qed.

(** * Further properties *)

(** ** Usage aggregator: closed forms of the scan *)

Lemma usage_records_snoc (chunks : list Chunk) (chunk : Chunk) :
  usage_records (chunks ++ [chunk])
  = usage_records chunks ++ match usage_of_chunk chunk with
                            | Some u => [u]
                            | None => []
                            end.
Proof. unfold usage_records. by rewrite omap_app. Qed.

Lemma last_positive_snoc (values : list Z) (v : Z) :
  last_positive (values ++ [v])
  = if decide (0 < v)%Z then Some v else last_positive values.
Proof.
  unfold last_positive. rewrite filter_app, filter_cons, filter_nil.
  case_decide; [by rewrite last_snoc | by rewrite app_nil_r].
Qed.

Lemma omap_snoc {A B} (f : A → option B) (l : list A) (x : A) :
  omap f (l ++ [x]) = omap f l ++ match f x with Some y => [y] | None => [] end.
Proof. by rewrite omap_app. Qed.

Lemma override_positive_snoc (values : list Z) (new : option Z) :
  override_positive (default 0%Z new) (default 0%Z (last_positive values))
  = default 0%Z (last_positive (values ++ match new with
                                          | Some v => [v]
                                          | None => []
                                          end)).
Proof.
  rewrite override_positive_spec. destruct new as [v|]; simpl.
  - rewrite last_positive_snoc. by case_decide.
  - by rewrite app_nil_r.
Qed.

Lemma upc_prompt_tokens_last_positive (chunks : list Chunk) :
  upc_prompt_tokens (_calculate_usage_per_chunk chunks)
  = default 0%Z (last_positive (omap uc_prompt_tokens (usage_records chunks))).
Proof.
  induction chunks as [|c chunks IH] using rev_ind; [done|].
  rewrite _calculate_usage_per_chunk_snoc, usage_records_snoc. unfold usage_step.
  destruct (usage_of_chunk c) as [u|]; [|by rewrite app_nil_r].
  rewrite omap_snoc. simpl. rewrite IH, override_positive_snoc.
  by destruct (uc_prompt_tokens u).
Qed.

Lemma upc_completion_tokens_last_positive (chunks : list Chunk) :
  upc_completion_tokens (_calculate_usage_per_chunk chunks)
  = default 0%Z (last_positive (omap uc_completion_tokens (usage_records chunks))).
Proof.
  induction chunks as [|c chunks IH] using rev_ind; [done|].
  rewrite _calculate_usage_per_chunk_snoc, usage_records_snoc. unfold usage_step.
  destruct (usage_of_chunk c) as [u|]; [|by rewrite app_nil_r].
  rewrite omap_snoc. simpl. rewrite IH, override_positive_snoc.
  by destruct (uc_completion_tokens u).
Qed.

(** X1. After the scan, [prompt_tokens] is the last strictly positive
    [prompt_tokens] carried by a usage record of the chunk set, and 0 when
    no record carries one; likewise for [completion_tokens]. *)
Theorem _calculate_usage_per_chunk_last_positive (chunks : list Chunk) :
  upc_prompt_tokens (_calculate_usage_per_chunk chunks)
  = default 0%Z (last_positive (omap uc_prompt_tokens (usage_records chunks)))
  ∧ upc_completion_tokens (_calculate_usage_per_chunk chunks)
    = default 0%Z (last_positive (omap uc_completion_tokens (usage_records chunks))).
Proof.
  split;
    [apply upc_prompt_tokens_last_positive | apply upc_completion_tokens_last_positive].
Qed.

Lemma or_else_head_None (values : list Z) :
  or_else (last_positive values) (head values) = None ↔ values = [].
Proof.
  destruct values as [|v values]; [done|].
  simpl. by destruct (last_positive (v :: values)).
Qed.

Lemma override_cache_closed (values : list Z) (new : option Z) :
  override_cache new (or_else (last_positive values) (head values))
  = let values' := values ++ match new with Some v => [v] | None => [] end in
    or_else (last_positive values') (head values').
Proof.
  rewrite override_cache_spec. destruct new as [v|]; [|by rewrite app_nil_r].
  cbn zeta. rewrite last_positive_snoc.
  destruct (decide (0 < v)%Z) as [Hv|Hv].
  - by rewrite decide_True by auto.
  - destruct values as [|w values].
    + by rewrite decide_True by auto.
    + rewrite decide_False; [done|].
      intros [?|Hnone]; [done|]. by apply or_else_head_None in Hnone.
Qed.

(** X2. After the scan, a cache counter is the last strictly positive value
    carried by a usage record; when no record carries a positive value it
    is the first value carried at all, and it is unset when no record
    carries one. *)
Theorem _calculate_usage_per_chunk_cache (chunks : list Chunk) :
  let creation := omap uc_cache_creation_input_tokens (usage_records chunks) in
  let read := omap uc_cache_read_input_tokens (usage_records chunks) in
  upc_cache_creation_input_tokens (_calculate_usage_per_chunk chunks)
  = or_else (last_positive creation) (head creation)
  ∧ upc_cache_read_input_tokens (_calculate_usage_per_chunk chunks)
    = or_else (last_positive read) (head read).
Proof.
  cbn zeta.
  induction chunks as [|c chunks [IHc IHr]] using rev_ind; [done|].
  rewrite _calculate_usage_per_chunk_snoc, usage_records_snoc. unfold usage_step.
  destruct (usage_of_chunk c) as [u|]; [|by rewrite app_nil_r].
  rewrite !omap_snoc. simpl. rewrite IHc, IHr, !override_cache_closed. done.
Qed.

Lemma upc_details_last (chunks : list Chunk) :
  upc_completion_tokens_details (_calculate_usage_per_chunk chunks)
  = last (omap uc_completion_tokens_details (usage_records chunks))
  ∧ upc_web_search_requests (_calculate_usage_per_chunk chunks)
    = last (omap web_search_requests_of (usage_records chunks))
  ∧ upc_prompt_tokens_details (_calculate_usage_per_chunk chunks)
    = last (usage_records chunks) ≫= uc_prompt_tokens_details.
Proof.
  induction chunks as [|c chunks (IHc & IHw & IHp)] using rev_ind; [done|].
  rewrite _calculate_usage_per_chunk_snoc, usage_records_snoc. unfold usage_step.
  destruct (usage_of_chunk c) as [u|]; [|by rewrite app_nil_r].
  rewrite !omap_snoc, last_snoc. simpl. rewrite IHc, IHw.
  repeat split.
  - destruct (uc_completion_tokens_details u); [by rewrite last_snoc|].
    by rewrite app_nil_r.
  - change (uc_prompt_tokens_details u ≫= ptd_web_search_requests)
      with (web_search_requests_of u).
    destruct (web_search_requests_of u); [by rewrite last_snoc|].
    by rewrite app_nil_r.
Qed.

(** X3. After the scan, [completion_tokens_details] is the last one
    carried by a usage record and [web_search_requests] is the last one
    carried inside the [prompt_tokens_details] of a usage record, however
    many records without them follow; [prompt_tokens_details] itself is
    what the last usage record carries, so that a chunk list and the same
    list followed by a usage record without details differ there. *)
Theorem _calculate_usage_per_chunk_details (chunks : list Chunk) :
  let records := usage_records chunks in
  upc_completion_tokens_details (_calculate_usage_per_chunk chunks)
  = last (omap uc_completion_tokens_details records)
  ∧ upc_web_search_requests (_calculate_usage_per_chunk chunks)
    = last (omap web_search_requests_of records)
  ∧ upc_prompt_tokens_details (_calculate_usage_per_chunk chunks)
    = last records ≫= uc_prompt_tokens_details
  ∧ ∀ u, uc_prompt_tokens_details u = None →
         upc_prompt_tokens_details
           (_calculate_usage_per_chunk (chunks ++ [usage_chunk_of u])) = None.
Proof.
  cbn zeta. destruct (upc_details_last chunks) as (Hc & Hw & Hp).
  repeat split; [done..|].
  intros u Hu.
  destruct (upc_details_last (chunks ++ [usage_chunk_of u])) as (_ & _ & ->).
  rewrite usage_records_snoc. cbn. by rewrite last_snoc.
Qed.

(** ** Usage aggregator: what [calculate_usage] returns *)

Lemma exists_last_positive (values : list Z) :
  Exists (λ v, 0 < v)%Z values →
  ∃ v, last_positive values = Some v ∧ (0 < v)%Z.
Proof.
  intros Hex. unfold last_positive.
  destruct (last (filter (λ v, (0 < v)%Z) values)) as [v|] eqn:Hlast.
  - exists v. split; [done|].
    apply last_Some_elem_of in Hlast. by apply list_elem_of_filter in Hlast as [? _].
  - apply last_None in Hlast. apply Exists_exists in Hex as (v & Hin & Hv).
    assert (v ∈ filter (λ v, (0 < v)%Z) values) as Hf.
    { apply list_elem_of_filter. by split. }
    rewrite Hlast in Hf. by apply not_elem_of_nil in Hf.
Qed.

(** X4. When some usage record carries a positive [prompt_tokens] and some
    usage record carries a positive [completion_tokens], the tokenizer is
    not consulted: [calculate_usage] returns a record, the same one for
    any two tokenizers, whose counters are those of the scan. *)
Theorem calculate_usage_without_tokenizer {Messages E : Type}
    (token_counter token_counter' :
       string → option Messages → option string → bool → result E Z)
    (chunks : list Chunk) (model completion_output : string)
    (messages : option Messages) (reasoning_tokens : option Z) :
  Exists (λ v, 0 < v)%Z (omap uc_prompt_tokens (usage_records chunks)) →
  Exists (λ v, 0 < v)%Z (omap uc_completion_tokens (usage_records chunks)) →
  ∃ usage,
    calculate_usage token_counter chunks model completion_output
                    messages reasoning_tokens = Ok usage
    ∧ calculate_usage token_counter' chunks model completion_output
                      messages reasoning_tokens = Ok usage
    ∧ Some (prompt_tokens usage)
      = last_positive (omap uc_prompt_tokens (usage_records chunks))
    ∧ Some (completion_tokens usage)
      = last_positive (omap uc_completion_tokens (usage_records chunks)).
Proof.
  intros [p [Hp Hp0]]%exists_last_positive [c [Hc Hc0]]%exists_last_positive.
  pose proof (upc_prompt_tokens_last_positive chunks) as Hsp.
  pose proof (upc_completion_tokens_last_positive chunks) as Hsc.
  rewrite Hp in Hsp. rewrite Hc in Hsc. simpl in Hsp, Hsc.
  unfold calculate_usage, resolve_completion_tokens, resolve_prompt_tokens.
  rewrite Hsp, Hsc, Hp, Hc.
  destruct (Z.eqb_spec p 0); [lia|]. destruct (Z.eqb_spec c 0); [lia|].
  eexists. repeat split.
Qed.

Lemma calculate_usage_without_tokenizer_witness :
  ∃ usage,
    calculate_usage failing_counter [usage_with 10 5] "gpt" "Hello" None None
    = Ok usage
    ∧ calculate_usage text_only_counter [usage_with 10 5] "gpt" "Hello" None None
      = Ok usage
    ∧ Some (prompt_tokens usage) = Some 10%Z
    ∧ Some (completion_tokens usage) = Some 5%Z.
Proof.
  apply (calculate_usage_without_tokenizer failing_counter text_only_counter
           [usage_with 10 5] "gpt" "Hello" None None).
  - apply Exists_cons_hd. simpl. lia.
  - apply Exists_cons_hd. simpl. lia.
Defined.



(** X6. In a record returned by [calculate_usage], the [reasoning_tokens]
    of [completion_tokens_details] is the one of the last
    [completion_tokens_details] that a usage record carried, when that one
    has a count; the count supplied by the caller is used only
    otherwise. *)
Theorem calculate_usage_reasoning_tokens {Messages E : Type}
    (token_counter : string → option Messages → option string → bool → result E Z)
    (chunks : list Chunk) (model completion_output : string)
    (messages : option Messages) (reasoning_tokens : option Z) (usage : Usage) :
  calculate_usage token_counter chunks model completion_output
                  messages reasoning_tokens = Ok usage →
  completion_tokens_details usage ≫= ctd_reasoning_tokens
  = or_else (last (omap uc_completion_tokens_details (usage_records chunks))
               ≫= ctd_reasoning_tokens)
            reasoning_tokens.
Proof.
  unfold calculate_usage.
  destruct (resolve_completion_tokens _ _ _ _) as [completion|e]; [|done].
  intros [= <-]. simpl.
  destruct (upc_details_last chunks) as (-> & _ & _).
  unfold merge_reasoning_tokens.
  destruct (last (omap uc_completion_tokens_details (usage_records chunks)))
    as [[[r|]]|], reasoning_tokens; done.
Qed.

Lemma calculate_usage_reasoning_tokens_witness :
  ∃ usage,
    calculate_usage failing_counter [usage_with 10 5] "gpt" "Hello" None (Some 4%Z)
    = Ok usage
    ∧ completion_tokens_details usage ≫= ctd_reasoning_tokens = Some 4%Z.
Proof.
  eexists. split; [reflexivity|].
  exact (calculate_usage_reasoning_tokens failing_counter [usage_with 10 5]
           "gpt" "Hello" None (Some 4%Z) _ eq_refl).
Defined.

(** X7. With a tokenizer that never returns a negative count, the three
    counters of a record returned by [calculate_usage] are never
    negative. *)
Theorem calculate_usage_nonneg {Messages E : Type}
    (token_counter : string → option Messages → option string → bool → result E Z)
    (chunks : list Chunk) (model completion_output : string)
    (messages : option Messages) (reasoning_tokens : option Z) (usage : Usage) :
  (∀ model messages text flag n,
     token_counter model messages text flag = Ok n → (0 ≤ n)%Z) →
  calculate_usage token_counter chunks model completion_output
                  messages reasoning_tokens = Ok usage →
  (0 ≤ prompt_tokens usage)%Z ∧ (0 ≤ completion_tokens usage)%Z
  ∧ (0 ≤ total_tokens usage)%Z.
Proof.
  intros Hcounter.
  destruct (_calculate_usage_per_chunk_nonneg chunks) as [Hp Hc].
  unfold calculate_usage, resolve_completion_tokens, resolve_prompt_tokens.
  destruct (Z.eqb_spec (upc_completion_tokens (_calculate_usage_per_chunk chunks)) 0)
    as [Hc0|Hc0].
  - destruct (token_counter model None (Some completion_output) true)
      as [completion|e] eqn:Hcompletion; [|done].
    apply Hcounter in Hcompletion. intros [= <-]. simpl.
    destruct (Z.eqb_spec (upc_prompt_tokens (_calculate_usage_per_chunk chunks)) 0).
    + destruct (token_counter model messages None false) as [prompt|e'] eqn:Hprompt.
      * apply Hcounter in Hprompt. lia.
      * lia.
    + lia.
  - intros [= <-]. simpl.
    destruct (Z.eqb_spec (upc_prompt_tokens (_calculate_usage_per_chunk chunks)) 0).
    + destruct (token_counter model messages None false) as [prompt|e'] eqn:Hprompt.
      * apply Hcounter in Hprompt. lia.
      * lia.
    + lia.
Qed.

Lemma calculate_usage_nonneg_witness :
  ∃ usage,
    calculate_usage nonneg_counter [] "gpt" "Hello" None None = Ok usage
    ∧ (0 ≤ prompt_tokens usage)%Z ∧ (0 ≤ completion_tokens usage)%Z
    ∧ (0 ≤ total_tokens usage)%Z.
Proof.
  eexists. split; [reflexivity|].
  apply (calculate_usage_nonneg nonneg_counter [] "gpt" "Hello" None None);
    [|reflexivity].
  intros model messages [t|] flag n [= <-]; lia.
Defined.

(** ** Reasoning tokens *)

Section CountReasoningTokensFacts.
Context {Messages E : Type}.
Variable token_counter :
  string → option Messages → option string → bool → result E Z.
Variable default_model : string.

Lemma count_reasoning_fold_raise (choices : list Choices) (e : E) :
  fold_left (count_reasoning_step token_counter default_model) choices (Raise e)
  = Raise e.
Proof. induction choices as [|c cs IH]; [done | apply IH]. Qed.

Lemma count_reasoning_fold_shift (choices : list Choices) (n : Z) :
  fold_left (count_reasoning_step token_counter default_model) choices (Ok n)
  = match count_reasoning_tokens token_counter default_model choices with
    | Ok k => Ok (n + k)%Z
    | Raise e => Raise e
    end.
Proof.
  unfold count_reasoning_tokens. revert n.
  induction choices as [|c cs IH]; intros n; cbn [fold_left].
  - f_equal. lia.
  - unfold count_reasoning_step at 2 4.
    destruct (msg_reasoning_content (choices_message c)) as [text|]; [|apply IH].
    destruct (token_counter default_model None (Some text) true) as [k|e].
    + rewrite IH, (IH (0 + k)%Z).
      destruct (fold_left _ cs (Ok 0%Z)); [f_equal; lia | done].
    + by rewrite !count_reasoning_fold_raise.
Qed.

(** X8. [count_reasoning_tokens] is additive over the choices of the
    response: the count of [choices1 ++ choices2] is the sum of the two
    counts, and the first failure of the tokenizer, if any, is the one
    that leaves the function.  The tokenizer is not called for a response
    whose choices have no reasoning content: the count is 0. *)
Theorem count_reasoning_tokens_app (choices1 choices2 : list Choices) :
  count_reasoning_tokens token_counter default_model (choices1 ++ choices2)
  = match count_reasoning_tokens token_counter default_model choices1 with
    | Raise e => Raise e
    | Ok n1 =>
        match count_reasoning_tokens token_counter default_model choices2 with
        | Raise e => Raise e
        | Ok n2 => Ok (n1 + n2)%Z
        end
    end
  ∧ (Forall (λ c, msg_reasoning_content (choices_message c) = None) choices1 →
     count_reasoning_tokens token_counter default_model choices1 = Ok 0%Z).
Proof.
  split.
  - unfold count_reasoning_tokens at 1. rewrite fold_left_app.
    fold (count_reasoning_tokens token_counter default_model choices1).
    destruct (count_reasoning_tokens token_counter default_model choices1) as [n1|e].
    + apply count_reasoning_fold_shift.
    + apply count_reasoning_fold_raise.
  - intros Hnone. unfold count_reasoning_tokens. generalize 0%Z.
    induction Hnone as [|c cs Hc _ IH]; intros n; cbn [fold_left]; [done|].
    unfold count_reasoning_step at 2. rewrite Hc. apply IH.
Qed.

End CountReasoningTokensFacts.

(** ** Base-response builder: identity and side channel *)

Lemma _get_chunk_id_head (chunks : list ChunkX) :
  _get_chunk_id chunks = default "" (head (omap chunk_id chunks)).
Proof.
  induction chunks as [|c chunks IH]; [done|].
  rewrite omap_cons. unfold chunk_id at 1. cbn [_get_chunk_id].
  by destruct (kx_id c) as [[|a s]|].
Qed.

(** X9. [_get_chunk_id] returns the first non-empty [id] of the chunk
    list, and the empty string when no chunk has one.  Over a
    concatenation it returns the id found in the first part when there is
    one, and the id of the second part otherwise. *)
Theorem _get_chunk_id_first (chunks1 chunks2 : list ChunkX) :
  _get_chunk_id chunks1 = default "" (head (omap chunk_id chunks1))
  ∧ _get_chunk_id (chunks1 ++ chunks2)
    = str_or (_get_chunk_id chunks1) (_get_chunk_id chunks2)
  ∧ (_get_chunk_id chunks1 = "" ↔ Forall (λ c, chunk_id c = None) chunks1).
Proof.
  split; [apply _get_chunk_id_head|]. split.
  - induction chunks1 as [|c chunks1 IH]; [done|].
    rewrite <- app_comm_cons. cbn [_get_chunk_id].
    by destruct (kx_id c) as [[|a s]|].
  - induction chunks1 as [|c chunks1 IH]; [done|].
    cbn [_get_chunk_id]. rewrite Forall_cons. unfold chunk_id at 1.
    destruct (kx_id c) as [[|a s]|]; simpl;
      [tauto | split; [done | intros [? _]; done] | tauto].
Qed.




(** ** Construction and ordering *)

Section PySortedMore.
Context {A K : Type} (key : A → K) (lt : K → K → bool).

Lemma py_sorted_of_sorted (l : list A) :
  StronglySorted (key_le key lt) l → py_sorted key lt l = l.
Proof.
  induction 1 as [|x l Hl IH Hx]; [done|].
  cbn [py_sorted foldr]. fold (py_sorted key lt l). rewrite IH.
  destruct l as [|y l]; [done|].
  apply Forall_cons in Hx as [Hxy _]. unfold key_le in Hxy.
  cbn [sorted_insert]. by rewrite Hxy.
Qed.

Lemma sorted_insert_fmap {B} (f : B → A) (x : B) (l : list B) :
  f <$> sorted_insert (λ b, key (f b)) lt x l = sorted_insert key lt (f x) (f <$> l).
Proof.
  induction l as [|y l IH]; [done|].
  cbn [sorted_insert]. rewrite fmap_cons. cbn [sorted_insert].
  destruct (lt (key (f y)) (key (f x))); [|done].
  by rewrite fmap_cons, IH.
Qed.

Lemma py_sorted_fmap {B} (f : B → A) (l : list B) :
  f <$> py_sorted (λ b, key (f b)) lt l = py_sorted key lt (f <$> l).
Proof.
  induction l as [|x l IH]; [done|].
  cbn [py_sorted foldr]. fold (py_sorted (λ b, key (f b)) lt l).
  rewrite sorted_insert_fmap, IH. done.
Qed.

End PySortedMore.

Lemma _sort_chunks_sort_by_created_at (chunks : list Chunk) :
  _sort_chunks chunks = sort_by_created_at ck_hidden_params chunks.
Proof. reflexivity. Qed.

Lemma _sort_chunks_perm (chunks : list Chunk) : _sort_chunks chunks ≡ₚ chunks.
Proof.
  unfold _sort_chunks. destruct chunks as [|c0 chunks]; [done|].
  case_match; [apply py_sorted_perm | done].
Qed.

(** X11. [_sort_chunks] never drops or repeats a chunk, keeps the length
    of the sequence, and is idempotent: ordering an ordered sequence again
    changes nothing. *)
Theorem _sort_chunks_idempotent (chunks : list Chunk) :
  _sort_chunks chunks ≡ₚ chunks
  ∧ length (_sort_chunks chunks) = length chunks
  ∧ _sort_chunks (_sort_chunks chunks) = _sort_chunks chunks.
Proof.
  split; [apply _sort_chunks_perm|]. split.
  { by rewrite _sort_chunks_perm. }
  unfold _sort_chunks at 2 3. destruct chunks as [|c0 chunks]; [done|].
  destruct (truthy_num (hp_created_at (ck_hidden_params c0))) eqn:Hfirst.
  - pose proof (py_sorted_sorted created_at_key key_lt key_lt_asym key_le_trans
                  (c0 :: chunks)) as Hsorted.
    unfold _sort_chunks.
    destruct (py_sorted created_at_key key_lt (c0 :: chunks)) as [|d0 ds] eqn:Hs;
      [done|].
    case_match; [|done]. by apply py_sorted_of_sorted.
  - unfold _sort_chunks. by rewrite Hfirst.
Qed.

Lemma sort_by_created_at_chunk_of (chunks : list ChunkX) :
  chunk_of <$> sort_by_created_at kx_hidden_params chunks
  = _sort_chunks (chunk_of <$> chunks).
Proof.
  destruct chunks as [|c0 chunks]; [done|].
  unfold sort_by_created_at, _sort_chunks. rewrite fmap_cons.
  change (ck_hidden_params (chunk_of c0)) with (kx_hidden_params c0).
  case_match; [|done].
  rewrite <- fmap_cons.
  exact (py_sorted_fmap created_at_key key_lt chunk_of (c0 :: chunks)).
Qed.

(** X12. The constructor fails exactly on the empty chunk list.
    Otherwise [first_chunk] is the first chunk in arrival order, whatever
    the ordering does, and [chunks] holds the same chunks, ordered as
    [_sort_chunks] orders them; so [first_chunk] is one of [chunks], not
    necessarily the first. *)
Theorem __init___first_chunk {Messages : Type} (chunks : list ChunkX)
    (messages : option Messages) :
  match __init__ chunks messages with
  | Raise e => e = IndexError ∧ chunks = []
  | Ok processor =>
      head chunks = Some (cp_first_chunk processor)
      ∧ cp_messages processor = messages
      ∧ cp_chunks processor ≡ₚ chunks
      ∧ chunk_of <$> cp_chunks processor = _sort_chunks (chunk_of <$> chunks)
      ∧ cp_first_chunk processor ∈ cp_chunks processor
  end.
Proof.
  destruct chunks as [|c0 chunks]; [done|].
  cbn [__init__ cp_chunks cp_first_chunk cp_messages head].
  assert (Hperm : sort_by_created_at kx_hidden_params (c0 :: chunks) ≡ₚ c0 :: chunks).
  { unfold sort_by_created_at. case_match; [apply py_sorted_perm | done]. }
  repeat split; [done | apply sort_by_created_at_chunk_of |].
  rewrite Hperm. apply list_elem_of_here.
Qed.

(** ** Base64 merger: failure, staging and normal form *)

Lemma mapM_app_option {A B} (f : A → option B) (l1 l2 : list A) :
  mapM f (l1 ++ l2)
  = (k1 ← mapM f l1; k2 ← mapM f l2; Some (k1 ++ k2)).
Proof.
  induction l1 as [|x l1 IH]; simpl.
  - by destruct (mapM f l2).
  - destruct (f x) as [y|]; simpl; [|done]. rewrite IH.
    destruct (mapM f l1) as [k1|]; simpl; [|done].
    by destruct (mapM f l2).
Qed.

Lemma mapM_b64decode_bytes (base64_strings : list string) (decoded : list (list N)) :
  mapM b64decode base64_strings = Some decoded → Forall is_byte (concat decoded).
Proof.
  intros Hdecoded%mapM_Some. apply Forall_concat.
  induction Hdecoded as [|s bytes ss bs Hs _ IH]; constructor; [|done].
  by eapply b64decode_bytes.
Qed.

Lemma concatenate_base64_list_app_eq (base64_strings1 base64_strings2 : list string) :
  concatenate_base64_list (base64_strings1 ++ base64_strings2)
  = (merged1 ← concatenate_base64_list base64_strings1;
     merged2 ← concatenate_base64_list base64_strings2;
     concatenate_base64_list [merged1; merged2]).
Proof.
  unfold concatenate_base64_list. rewrite mapM_app_option.
  destruct (mapM b64decode base64_strings1) as [bs1|] eqn:H1; [|done].
  destruct (mapM b64decode base64_strings2) as [bs2|] eqn:H2; [|done].
  cbn [mbind option_bind mapM].
  rewrite !b64decode_b64encode by by eapply mapM_b64decode_bytes.
  cbn [mbind option_bind mret option_ret].
  by rewrite concat_app, (concat_cons (concat bs1)), (concat_cons (concat bs2)),
    concat_nil, app_nil_r.
Qed.

(** X13. [concatenate_base64_list] fails exactly when one of the strings
    does not decode.  Merging can be staged: merging two lists separately
    and then merging the two results gives the result of merging the
    concatenated list, failures included. *)
Theorem concatenate_base64_list_app (base64_strings1 base64_strings2 : list string) :
  (concatenate_base64_list base64_strings1 = None
   ↔ Exists (λ b64_str, b64decode b64_str = None) base64_strings1)
  ∧ concatenate_base64_list (base64_strings1 ++ base64_strings2)
    = (merged1 ← concatenate_base64_list base64_strings1;
       merged2 ← concatenate_base64_list base64_strings2;
       concatenate_base64_list [merged1; merged2]).
Proof.
  split; [|apply concatenate_base64_list_app_eq].
  rewrite <- mapM_None. unfold concatenate_base64_list.
  by destruct (mapM b64decode base64_strings1).
Qed.

Lemma length_string_of_list_ascii (l : list ascii) :
  String.length (string_of_list_ascii l) = length l.
Proof. induction l as [|c l IH]; simpl; [done | by rewrite IH]. Qed.

Lemma length_b2a_base64 (bin_data : list N) :
  length (b2a_base64 bin_data) = (4 * ((length bin_data + 2) `div` 3))%nat.
Proof.
  induction bin_data as [|b1|b1 b2|b1 b2 b3 rest IH] using list_ind3; [done..|].
  rewrite b2a_base64_group. cbn [length]. rewrite IH.
  replace (S (S (S (length rest))) + 2)%nat with ((length rest + 2) + 1 * 3)%nat by lia.
  rewrite Nat.div_add by lia. lia.
Qed.

Lemma concatenate_base64_list_Some_decodes (base64_strings : list string)
    (merged : string) :
  concatenate_base64_list base64_strings = Some merged →
  ∃ combined_bytes, b64decode merged = Some combined_bytes.
Proof.
  unfold concatenate_base64_list.
  destruct (mapM b64decode base64_strings) as [decoded|] eqn:Hdecoded; [|done].
  intros [= <-]. exists (concat decoded).
  by eapply b64decode_b64encode, mapM_b64decode_bytes.
Qed.

(** X14. A string returned by [concatenate_base64_list] is in normal
    form: it decodes, merging it alone gives it back, and its length is
    four characters for every started group of three decoded bytes. *)
Theorem concatenate_base64_list_canonical (base64_strings : list string)
    (merged : string) :
  concatenate_base64_list base64_strings = Some merged →
  concatenate_base64_list [merged] = Some merged
  ∧ ∃ combined_bytes,
      b64decode merged = Some combined_bytes
      ∧ String.length merged = (4 * ((length combined_bytes + 2) `div` 3))%nat.
Proof.
  unfold concatenate_base64_list at 1.
  destruct (mapM b64decode base64_strings) as [decoded|] eqn:Hdecoded; [|done].
  intros [= <-].
  pose proof (b64decode_b64encode _ (mapM_b64decode_bytes _ _ Hdecoded)) as Hround.
  split.
  - unfold concatenate_base64_list. cbn [mapM]. rewrite Hround.
    cbn [mbind option_bind mret option_ret].
    by rewrite concat_cons, concat_nil, app_nil_r.
  - exists (concat decoded). split; [done|].
    unfold b64encode. by rewrite length_string_of_list_ascii, length_b2a_base64.
Qed.

Lemma concatenate_base64_list_canonical_witness :
  concatenate_base64_list ["QUI="] = Some "QUI="
  ∧ ∃ combined_bytes,
      b64decode "QUI=" = Some combined_bytes
      ∧ String.length "QUI=" = (4 * ((length combined_bytes + 2) `div` 3))%nat.
Proof.
  apply (concatenate_base64_list_canonical ["QQ=="; "Qg=="]).
  by vm_compute.
Defined.

(** ** Audio merger *)

Lemma last_app_or_else {A} (l1 l2 : list A) :
  last (l1 ++ l2) = or_else (last l2) (last l1).
Proof.
  induction l2 as [|x l2 _] using rev_ind.
  - by rewrite app_nil_r.
  - by rewrite app_assoc, !last_snoc.
Qed.

Lemma audio_step_fold (audios : list AudioDelta) (st : AudioState) :
  base64_data_list (fold_left audio_step audios st)
  = base64_data_list st ++ omap au_data audios
  ∧ transcript_list (fold_left audio_step audios st)
    = transcript_list st ++ omap au_transcript audios
  ∧ as_expires_at (fold_left audio_step audios st)
    = or_else (last (omap au_expires_at audios)) (as_expires_at st)
  ∧ as_id (fold_left audio_step audios st)
    = or_else (last (omap au_id audios)) (as_id st).
Proof.
  induction audios as [|audio audios (IHd & IHt & IHe & IHi)] using rev_ind.
  - simpl. by rewrite !app_nil_r.
  - rewrite fold_left_app. cbn [fold_left audio_step base64_data_list
      transcript_list as_expires_at as_id].
    rewrite IHd, IHt, IHe, IHi, !omap_app, !last_app_or_else, !omap_cons.
    repeat split.
    + destruct (au_data audio); simpl; by rewrite ?app_nil_r, ?app_assoc.
    + destruct (au_transcript audio); simpl; by rewrite ?app_nil_r, ?app_assoc.
    + by destruct (au_expires_at audio).
    + by destruct (au_id audio).
Qed.

Lemma audio_choices_fold (choices : list ChoiceX) (st : AudioState) :
  fold_left audio_choice_step choices st
  = fold_left audio_step (omap audio_of choices) st.
Proof.
  revert st. induction choices as [|c cs IH]; intros st; [done|].
  cbn [fold_left]. rewrite IH, omap_cons. unfold audio_choice_step.
  by destruct (audio_of c).
Qed.

Lemma audio_chunks_fold (chunks : list ChunkX) (st : AudioState) :
  fold_left audio_chunk_step chunks st = fold_left audio_step (audios_of chunks) st.
Proof.
  revert st. induction chunks as [|c cs IH]; intros st; [done|].
  cbn [fold_left]. rewrite IH. unfold audio_chunk_step.
  rewrite audio_choices_fold. unfold audios_of. cbn [flat_map].
  by rewrite fold_left_app.
Qed.

Lemma audios_of_app (chunks1 chunks2 : list ChunkX) :
  audios_of (chunks1 ++ chunks2) = audios_of chunks1 ++ audios_of chunks2.
Proof. apply flat_map_app. Qed.

Lemma get_combined_audio_content_closed (in_one_hour : Z) (chunks : list ChunkX) :
  get_combined_audio_content in_one_hour chunks
  = match concatenate_base64_list (omap au_data (audios_of chunks)) with
    | None => Raise ValueError
    | Some concatenated_audio =>
        Ok {| ar_data := concatenated_audio;
              ar_expires_at :=
                match last (omap au_expires_at (audios_of chunks)) with
                | Some v => if (v =? 0)%Z then in_one_hour else v
                | None => in_one_hour
                end;
              ar_transcript := join (omap au_transcript (audios_of chunks));
              ar_id := last (omap au_id (audios_of chunks)) |}
    end.
Proof.
  unfold get_combined_audio_content. rewrite audio_chunks_fold.
  destruct (audio_step_fold (audios_of chunks) audio_init) as (-> & -> & -> & ->).
  cbn [audio_init base64_data_list transcript_list as_expires_at as_id app].
  by destruct (last (omap au_expires_at (audios_of chunks))),
    (last (omap au_id (audios_of chunks))).
Qed.

(** X15. [get_combined_audio_content] raises, a [ValueError], exactly
    when one of the [data] fragments does not decode.  Otherwise the data
    of the response decodes to the concatenation of the decoded fragments,
    its transcript is the in-order concatenation of the transcript
    fragments, its [id] is the last one seen, and its [expires_at] is the
    last one seen, replaced by the time of the call plus one hour when
    there is none or when it is 0. *)
Theorem get_combined_audio_content_spec (in_one_hour : Z) (chunks : list ChunkX) :
  let audios := audios_of chunks in
  match get_combined_audio_content in_one_hour chunks with
  | Raise e =>
      e = ValueError
      ∧ Exists (λ b64_str, b64decode b64_str = None) (omap au_data audios)
  | Ok response =>
      (∃ decoded,
         Forall2 (λ b64_str bytes, b64decode b64_str = Some bytes)
           (omap au_data audios) decoded
         ∧ b64decode (ar_data response) = Some (concat decoded))
      ∧ ar_transcript response = join (omap au_transcript audios)
      ∧ ar_id response = last (omap au_id audios)
      ∧ ar_expires_at response
        = match last (omap au_expires_at audios) with
          | Some v => if decide (v = 0%Z) then in_one_hour else v
          | None => in_one_hour
          end
  end.
Proof.
  intros audios. subst audios. rewrite get_combined_audio_content_closed.
  unfold concatenate_base64_list.
  destruct (mapM b64decode (omap au_data (audios_of chunks))) as [decoded|] eqn:Hd;
    cbn [mbind option_bind].
  - cbn [ar_data ar_transcript ar_id ar_expires_at]. repeat split.
    + exists decoded. split; [by apply mapM_Some|].
      by eapply b64decode_b64encode, mapM_b64decode_bytes.
    + destruct (last (omap au_expires_at (audios_of chunks))) as [v|]; [|done].
      destruct (Z.eqb_spec v 0); by case_decide.
  - split; [done | by apply mapM_None].
Qed.

(** X16. The audio merger composes over concatenation of chunk lists.
    The merge of [chunks1 ++ chunks2] fails when the merge of either part
    fails.  Otherwise its data is the base64 merge of the data of the two
    parts, its transcript is the two transcripts one after the other, its
    [id] is the one of the second part when it has one and the one of the
    first part otherwise, and its [expires_at] is the one of the second
    part when an [expires_at] was seen there, the one of the first part
    otherwise. *)
Theorem get_combined_audio_content_app (in_one_hour : Z)
    (chunks1 chunks2 : list ChunkX) :
  match get_combined_audio_content in_one_hour chunks1,
        get_combined_audio_content in_one_hour chunks2 with
  | Ok response1, Ok response2 =>
      ∃ response,
        get_combined_audio_content in_one_hour (chunks1 ++ chunks2) = Ok response
        ∧ concatenate_base64_list [ar_data response1; ar_data response2]
          = Some (ar_data response)
        ∧ ar_transcript response
          = ar_transcript response1 +:+ ar_transcript response2
        ∧ ar_id response = or_else (ar_id response2) (ar_id response1)
        ∧ ar_expires_at response
          = (if decide (omap au_expires_at (audios_of chunks2) = [])
             then ar_expires_at response1 else ar_expires_at response2)
  | _, _ =>
      get_combined_audio_content in_one_hour (chunks1 ++ chunks2) = Raise ValueError
  end.
Proof.
  rewrite !get_combined_audio_content_closed.
  rewrite audios_of_app, !omap_app, concatenate_base64_list_app_eq, join_app, !last_app_or_else.
  destruct (concatenate_base64_list (omap au_data (audios_of chunks1)))
    as [merged1|] eqn:H1; cbn [mbind option_bind]; [|done].
  destruct (concatenate_base64_list (omap au_data (audios_of chunks2)))
    as [merged2|] eqn:H2; cbn [mbind option_bind]; [|done].
  cbn [ar_data ar_transcript ar_id ar_expires_at].
  destruct (concatenate_base64_list [merged1; merged2]) as [merged|] eqn:Hm.
  - eexists. split; [done|]. cbn [ar_data ar_transcript ar_id ar_expires_at].
    repeat split.
    destruct (omap au_expires_at (audios_of chunks2)) as [|v vs] eqn:Hv
      using rev_ind; [done|].
    rewrite last_snoc. cbn [or_else]. rewrite decide_False; [done|].
    by destruct vs.
  - destruct (concatenate_base64_list_Some_decodes _ _ H1) as [bytes1 Hb1].
    destruct (concatenate_base64_list_Some_decodes _ _ H2) as [bytes2 Hb2].
    revert Hm. unfold concatenate_base64_list. cbn [mapM]. by rewrite Hb1, Hb2.
Qed.

(** ** Legacy function-call merger *)

Lemma function_calls_of_app (chunks1 chunks2 : list ChunkX) :
  function_calls_of (chunks1 ++ chunks2)
  = function_calls_of chunks1 ++ function_calls_of chunks2.
Proof. apply flat_map_app. Qed.

Lemma function_call_choices_fold (choices : list ChoiceX)
    (argument_list : list (option string)) :
  fold_left function_call_choice_step choices argument_list
  = argument_list ++ (fcd_arguments <$> omap function_call_of choices).
Proof.
  revert argument_list.
  induction choices as [|c cs IH]; intros argument_list; cbn [fold_left].
  - by rewrite app_nil_r.
  - rewrite IH, omap_cons. unfold function_call_choice_step.
    destruct (function_call_of c); [|done].
    by rewrite fmap_cons, <- app_assoc.
Qed.

Lemma function_call_chunks_fold (chunks : list ChunkX)
    (argument_list : list (option string)) :
  fold_left function_call_chunk_step chunks argument_list
  = argument_list ++ (fcd_arguments <$> function_calls_of chunks).
Proof.
  revert argument_list.
  induction chunks as [|c cs IH]; intros argument_list; cbn [fold_left].
  - by rewrite app_nil_r.
  - rewrite IH. unfold function_call_chunk_step.
    rewrite function_call_choices_fold. unfold function_calls_of.
    cbn [flat_map]. by rewrite fmap_app, app_assoc.
Qed.

Lemma mapM_id_fmap {A B} (f : A → option B) (l : list A) :
  mapM (λ x, x) (f <$> l) = mapM f l.
Proof.
  induction l as [|x l IH]; [done|].
  rewrite fmap_cons. cbn [mapM]. by rewrite IH.
Qed.

Lemma get_combined_function_call_content_closed (chunks : list ChunkX) :
  get_combined_function_call_content chunks
  = match first_function_call_name chunks with
    | Raise e => Raise e
    | Ok function_call_name =>
        match mapM fcd_arguments (function_calls_of chunks) with
        | None => Raise TypeError
        | Some arguments =>
            Ok {| fc_name := function_call_name; fc_arguments := join arguments |}
        end
    end.
Proof.
  unfold get_combined_function_call_content.
  destruct (first_function_call_name chunks) as [name|e]; [|done].
  rewrite function_call_chunks_fold. cbn [app]. unfold join_checked.
  rewrite mapM_id_fmap.
  by destruct (mapM fcd_arguments (function_calls_of chunks)).
Qed.

Lemma first_function_call_name_Ok (chunks : list ChunkX) (name : option string) :
  first_function_call_name chunks = Ok name →
  ∃ first rest, function_calls_of chunks = first :: rest ∧ name = fcd_name first.
Proof.
  destruct chunks as [|chunk0 chunks]; [done|]. cbn [first_function_call_name].
  unfold function_calls_of. cbn [flat_map].
  destruct (kx_choices chunk0) as [|choice0 choices]; [done|].
  rewrite omap_cons. unfold function_call_of at 1.
  destruct (cx_delta choice0) as [delta|]; [|done]. cbn [mbind option_bind].
  destruct (dx_function_call delta) as [function_call|]; [|done].
  intros [= <-]. by eexists _, _.
Qed.

(** X17. When [get_combined_function_call_content] returns, the first
    choice of the first chunk carries a function call, which is then the
    first one in scan order; the name returned is the name of that call
    and the arguments are the in-order concatenation of the arguments of
    all function calls of the chunk set.  It raises [TypeError] only when
    the name could be read and some function call has null arguments; any
    other error is the one raised while reading the name, and it is never
    a [ValueError]. *)
Theorem get_combined_function_call_content_spec (chunks : list ChunkX) :
  match get_combined_function_call_content chunks with
  | Ok call =>
      ∃ first rest arguments,
        function_calls_of chunks = first :: rest
        ∧ fc_name call = fcd_name first
        ∧ Forall2 (λ function_call s, fcd_arguments function_call = Some s)
            (first :: rest) arguments
        ∧ fc_arguments call = join arguments
  | Raise e =>
      e ≠ ValueError
      ∧ (e = TypeError →
         Exists (λ function_call, fcd_arguments function_call = None)
           (function_calls_of chunks))
      ∧ (e ≠ TypeError → first_function_call_name chunks = Raise e)
  end.
Proof.
  rewrite get_combined_function_call_content_closed.
  destruct (first_function_call_name chunks) as [name|e] eqn:Hname.
  - destruct (first_function_call_name_Ok _ _ Hname) as (first & rest & Hcalls & ->).
    destruct (mapM fcd_arguments (function_calls_of chunks)) as [arguments|] eqn:Hargs.
    + exists first, rest, arguments. rewrite <- Hcalls.
      repeat split; by apply mapM_Some.
    + split; [done|]. split; [by intros _; apply mapM_None | done].
  - assert (Hkind : e ≠ ValueError ∧ e ≠ TypeError).
    { revert Hname. destruct chunks as [|chunk0 ?]; [by intros [= <-]|].
      cbn [first_function_call_name].
      destruct (kx_choices chunk0) as [|choice0 ?]; [by intros [= <-]|].
      destruct (cx_delta choice0) as [delta|]; [|by intros [= <-]].
      destruct (dx_function_call delta); [done | by intros [= <-]]. }
    destruct Hkind as [Hvalue Htype]. by split; [|split].
Qed.

(** X18. Feeding further chunks to the function-call merger keeps the
    name and extends the arguments: when [chunks1] merges to a call, then
    [chunks1 ++ chunks2] merges to the call of the same name whose
    arguments are those of [chunks1] followed by the arguments of the
    function calls of [chunks2], and it raises [TypeError] when one of
    these has null arguments. *)
Theorem get_combined_function_call_content_app (chunks1 chunks2 : list ChunkX)
    (call1 : FunctionCall) :
  get_combined_function_call_content chunks1 = Ok call1 →
  get_combined_function_call_content (chunks1 ++ chunks2)
  = match mapM fcd_arguments (function_calls_of chunks2) with
    | None => Raise TypeError
    | Some arguments =>
        Ok {| fc_name := fc_name call1;
              fc_arguments := fc_arguments call1 +:+ join arguments |}
    end.
Proof.
  rewrite !get_combined_function_call_content_closed.
  destruct chunks1 as [|chunk0 chunks1]; [done|].
  rewrite <- app_comm_cons.
  change (first_function_call_name (chunk0 :: chunks1 ++ chunks2))
    with (first_function_call_name (chunk0 :: chunks1)).
  destruct (first_function_call_name (chunk0 :: chunks1)) as [name|e]; [|done].
  rewrite app_comm_cons, function_calls_of_app, mapM_app_option.
  destruct (mapM fcd_arguments (function_calls_of (chunk0 :: chunks1)))
    as [arguments1|]; [|done].
  intros [= <-]. cbn [mbind option_bind fc_name fc_arguments].
  destruct (mapM fcd_arguments (function_calls_of chunks2)) as [arguments2|]; [|done].
  cbn [mbind option_bind]. by rewrite join_app.
Qed.

Lemma get_combined_function_call_content_app_witness :
  get_combined_function_call_content
    ([function_call_chunk (Some "get_weather") (Some "{")]
     ++ [function_call_chunk None (Some "}")])
  = Ok {| fc_name := Some "get_weather"; fc_arguments := "{" +:+ join ["}"] |}.
Proof.
  exact (get_combined_function_call_content_app
           [function_call_chunk (Some "get_weather") (Some "{")]
           [function_call_chunk None (Some "}")]
           {| fc_name := Some "get_weather"; fc_arguments := "{" |} eq_refl).
Defined.

(** ** Tool-call merger: what is emitted *)

Lemma str_or_default_ne (s d : string) : d ≠ "" → str_or s d ≠ "".
Proof. by destruct s. Qed.

Lemma emit_tool_call_nonempty (tool_call_data : ToolCallAcc)
    (call : ChatCompletionMessageToolCall) :
  emit_tool_call tool_call_data = Some call → nonempty_call call.
Proof.
  unfold emit_tool_call, nonempty_call.
  destruct (acc_id tool_call_data) as [[|a i]|]; [done| |done].
  destruct (acc_name tool_call_data) as [[|b n]|]; [done| |done].
  intros [= <-]. cbn [tcall_id tcall_function tcall_type f_name f_arguments].
  repeat split; [done | done | by apply str_or_default_ne..].
Qed.

Lemma length_omap_le {A B} (f : A → option B) (l : list A) :
  length (omap f l) ≤ length l.
Proof.
  induction l as [|x l IH]; [done|].
  rewrite omap_cons. destruct (f x); simpl; lia.
Qed.

(** X19. No field of an emitted tool call is empty: every call returned
    by [get_combined_tool_content] has a non-empty [id], function name,
    arguments string and [type].  The merger never emits more calls than
    it scanned entries. *)
Theorem get_combined_tool_content_nonempty (chunks : list Chunk) :
  Forall nonempty_call (get_combined_tool_content chunks)
  ∧ length (get_combined_tool_content chunks) ≤ length (scanned_entries chunks).
Proof.
  unfold get_combined_tool_content. rewrite emit_fold. cbn [app]. split.
  - apply Forall_forall. intros call Hcall.
    apply list_elem_of_omap in Hcall as (i & _ & Hi).
    destruct (build_tool_call_map chunks !! i) as [acc|]; [|done].
    by eapply emit_tool_call_nonempty.
  - etrans; [apply length_omap_le|].
    rewrite <- (length_fmap index_of (scanned_entries chunks)).
    apply submseteq_length, NoDup_submseteq.
    + rewrite sorted_keys_perm. apply NoDup_fst_map_to_list.
    + intros i [acc Hi]%sorted_keys_elem_of.
      rewrite build_tool_call_map_lookup in Hi.
      destruct (at_index i (scanned_entries chunks)) as [|tc tcs] eqn:Hat; [done|].
      assert (Htc : tc ∈ at_index i (scanned_entries chunks)).
      { rewrite Hat. apply list_elem_of_here. }
      apply list_elem_of_filter in Htc as [<- Htc].
      by apply list_elem_of_fmap_2.
Qed.

(** X20. The tool calls emitted depend only on the entries scanned at
    each index, in their order there: how the entries of different
    indices are interleaved, and how they are spread over chunks and
    choices, is immaterial. *)
Theorem get_combined_tool_content_by_index (chunks1 chunks2 : list Chunk) :
  (∀ i, at_index i (scanned_entries chunks1) = at_index i (scanned_entries chunks2)) →
  get_combined_tool_content chunks1 = get_combined_tool_content chunks2.
Proof.
  intros Hsame. unfold get_combined_tool_content.
  assert (build_tool_call_map chunks1 = build_tool_call_map chunks2) as ->; [|done].
  apply map_eq. intros i. by rewrite !build_tool_call_map_lookup, Hsame.
Qed.

Lemma get_combined_tool_content_by_index_witness :
  get_combined_tool_content
    [tool_chunk [entry_at 0 (Some "call_a") (Some "f") None;
                 entry_at 1 (Some "call_b") (Some "g") None;
                 entry_at 0 None None (Some "{}")]]
  = get_combined_tool_content
      [tool_chunk [entry_at 1 (Some "call_b") (Some "g") None];
       tool_chunk [entry_at 0 (Some "call_a") (Some "f") None];
       tool_chunk [entry_at 0 None None (Some "{}")]].
Proof.
  apply get_combined_tool_content_by_index.
  intros i. unfold at_index, scanned_entries. cbn.
  destruct (decide (0%Z = i)), (decide (1%Z = i)); try done; lia.
Defined.
